(** * A shallow embedding of the pong game (clock.c, court.c, paddle.c,
      ball.c, pong.c) and the properties of its simulation core.

    Conventions of the embedding.

    - A C [int] is a [Z].  Signed overflow is undefined in C, so the model is
      the program wherever the program has a defined meaning; the values that
      matter here (screen coordinates, delays, lives) stay tiny, and for the
      clock [Clock.clock_in_int_range] gives the number of ticks below which no
      field leaves the 32-bit range.  C's [/] and [%] truncate toward zero:
      they are [Z.quot] and [Z.rem].
    - The file-scoped objects ([court], [clock]), the curses globals ([LINES],
      [COLS]), the state of libc's [rand()] and the terminal are the fields of
      one [world]; every C function is a computation in the monad [M] that
      threads the world and can stop the process ([exit]).
    - [rand()] reads the next cell of a tape of non-negative numbers, so a
      statement quantified over all worlds is quantified over all the outcomes
      the generator can have.
    - The objects behind [struct ppball *] and [struct pppaddle *] are passed
      and returned by value.  [malloc] is taken to succeed. *)

From Stdlib Require Import ZArith NArith List Ascii Bool Lia.
Import ListNotations.
Local Open Scope Z_scope.

(** ** Constants of the headers *)

(* clock.h *)
Definition TICKS_PER_SEC : Z := 50.
(* clock.c *)
Definition MINUTE : Z := 60.
(* court.h *)
Definition BORDER : Z := 3.
(* court.c *)
Definition ROW_SYMBOL : ascii := "-"%char.
Definition COL_SYMBOL : ascii := "|"%char.
Definition TIME_LEN : Z := 17.
(* pong.h *)
Definition NUM_BALLS : Z := 3.
Definition BLANK : ascii := " "%char.
(* ball.h *)
Definition LOSE : Z := -1.
Definition NO_CONTACT : Z := 0.
Definition CONTACT : Z := 1.
Definition BOUNCE : Z := 1.
(* ball.c *)
Definition BALL_SYMBOL : ascii := "O"%char.   (* DFL_SYMBOL of ball.c *)
Definition MAX_DELAY : Z := 10.
(* paddle.c *)
Definition PADDLE_SYMBOL : ascii := "#"%char. (* DFL_SYMBOL of paddle.c *)
(* pong.c *)
Definition MIN_LINES : Z := 11.
Definition MIN_COLS : Z := 40.
Definition EXIT_MSG_LEN : Z := 16.

(** ** The structs *)

(* struct timer, clock.c *)
Record timer := { mins : Z; secs : Z; ticks : Z }.

(* struct ppcourt, court.c *)
Record ppcourt := { top : Z; right : Z; bot : Z; left : Z }.

(* struct pppaddle, paddle.c *)
Record pppaddle := {
  pad_char : ascii;
  pad_top : Z; pad_bot : Z; pad_col : Z;
  pad_mintop : Z; pad_maxbot : Z
}.

(* struct ppball, ball.c *)
Record ppball := {
  remain : Z;
  x_pos : Z; y_pos : Z;
  x_dir : Z; y_dir : Z;
  x_delay : Z; y_delay : Z;
  x_count : Z; y_count : Z;
  symbol : ascii
}.

(** ** The world and the monad *)

(** What the program does to the terminal and to the process, call by call. *)
Inductive event :=
| Move (y x : Z)                       (* move(y, x) *)
| Addch (ch : ascii)                   (* addch(ch) *)
| Mvaddch (y x : Z) (ch : ascii)       (* mvaddch(y, x, ch) *)
| PrintwTime (m s : Z)                 (* printw(TIME_FORMAT, m, s) *)
| MvprintwBalls (y x balls : Z)        (* mvprintw(y, x, "BALLS LEFT: %2d", balls) *)
| MvprintwLasted (y x m s : Z)         (* mvprintw(y, x, "You lasted %.2d:%.2d", m, s) *)
| Standout
| Standend
| Refresh
| Sleep (s : Z)
| SetTicker (ms : Z)
| Endwin
| Stderr_too_small.                    (* the diagnostic of is_min_size *)

Record world := {
  LINES : Z;                 (* curses *)
  COLS : Z;
  rand_tape : nat -> N;      (* the values rand() is going to return *)
  rand_next : nat;           (* how many of them were consumed *)
  screen : list event;       (* newest first *)
  court : ppcourt;           (* static struct ppcourt court *)
  clock : timer              (* static struct timer clock *)
}.

Definition set_rand_next (n : nat) (w : world) : world :=
  {| LINES := LINES w; COLS := COLS w; rand_tape := rand_tape w; rand_next := n;
     screen := screen w; court := court w; clock := clock w |}.
Definition set_screen (s : list event) (w : world) : world :=
  {| LINES := LINES w; COLS := COLS w; rand_tape := rand_tape w;
     rand_next := rand_next w; screen := s; court := court w; clock := clock w |}.
Definition set_court (c : ppcourt) (w : world) : world :=
  {| LINES := LINES w; COLS := COLS w; rand_tape := rand_tape w;
     rand_next := rand_next w; screen := screen w; court := c; clock := clock w |}.
Definition set_clock (t : timer) (w : world) : world :=
  {| LINES := LINES w; COLS := COLS w; rand_tape := rand_tape w;
     rand_next := rand_next w; screen := screen w; court := court w; clock := t |}.

(** A call either returns a value or ends the process with an exit code. *)
Inductive res (A : Type) :=
| Val (a : A)
| Exited (code : Z).
Arguments Val {A} a.
Arguments Exited {A} code.

Definition M (A : Type) : Type := world -> res A * world.

Definition ret {A} (a : A) : M A := fun w => (Val a, w).
Definition bind {A B} (m : M A) (k : A -> M B) : M B :=
  fun w => match m w with
           | (Val a, w') => k a w'
           | (Exited c, w') => (Exited c, w')
           end.
Definition exit {A} (code : Z) : M A := fun w => (Exited code, w).
Definition gets {A} (f : world -> A) : M A := fun w => (Val (f w), w).
Definition modify (f : world -> world) : M unit := fun w => (Val tt, f w).

Declare Scope monad_scope.
Delimit Scope monad_scope with monad.
Notation "x <- m ;; k" := (bind m (fun x => k))
  (at level 61, m at next level, right associativity) : monad_scope.
Notation "m ;; k" := (bind m (fun _ => k))
  (at level 61, right associativity) : monad_scope.
Local Open Scope monad_scope.

Definition emit (e : event) : M unit :=
  modify (fun w => set_screen (e :: screen w) w).

(* rand(), stdlib.h *)
Definition rand : M Z :=
  fun w => (Val (Z.of_N (rand_tape w (rand_next w))),
            set_rand_next (S (rand_next w)) w).

(** [n] calls in a row. *)
Fixpoint times (n : nat) (m : M unit) : M unit :=
  match n with
  | O => ret tt
  | S k => m ;; times k m
  end.

(** ** pong.c: the cursor *)

Definition park_cursor : M unit :=
  l <- gets LINES ;; c <- gets COLS ;;
  emit (Move (l - 1) (c - 1)).

(** ** court.c and clock.c

    [clock_tick] prints the time through court.c and [print_time] reads the
    clock through clock.c, so the two units are embedded together. *)

Definition court_init (t r b l : Z) : M unit :=
  modify (set_court {| top := t; right := r; bot := b; left := l |}).

Definition get_right_edge : M Z := gets (fun w => right (court w)).
Definition get_left_edge : M Z := gets (fun w => left (court w)).
Definition get_top_edge : M Z := gets (fun w => top (court w)).
Definition get_bot_edge : M Z := gets (fun w => bot (court w)).

Definition get_mins : M Z := gets (fun w => mins (clock w)).
Definition get_secs : M Z := gets (fun w => secs (clock w)).

Definition print_time : M unit :=
  t <- get_top_edge ;; r <- get_right_edge ;;
  emit (Move (t - 1) (r - TIME_LEN)) ;;
  m <- get_mins ;; s <- get_secs ;;
  emit (PrintwTime m s) ;;
  park_cursor ;;
  emit Refresh.

Definition print_balls (balls : Z) : M unit :=
  c <- gets court ;;
  emit (MvprintwBalls (top c - 1) (left c) balls) ;;
  park_cursor ;;
  emit Refresh.

Definition clock_init : M unit :=
  modify (set_clock {| mins := 0; secs := 0; ticks := 0 |}).

Definition set_ticks (n : Z) : M unit :=
  modify (fun w => set_clock {| mins := mins (clock w); secs := secs (clock w);
                                ticks := n |} w).
Definition set_secs (n : Z) : M unit :=
  modify (fun w => set_clock {| mins := mins (clock w); secs := n;
                                ticks := ticks (clock w) |} w).
Definition set_mins (n : Z) : M unit :=
  modify (fun w => set_clock {| mins := n; secs := secs (clock w);
                                ticks := ticks (clock w) |} w).

Definition clock_tick : M unit :=
  t <- gets (fun w => ticks (clock w)) ;;
  set_ticks (t + 1) ;;                          (* ++clock.ticks *)
  if t + 1 =? TICKS_PER_SEC then
    s <- get_secs ;;
    set_secs (s + 1) ;;                         (* ++clock.secs *)
    (if s + 1 =? MINUTE then
       set_secs 0 ;;
       m <- get_mins ;;
       set_mins (m + 1)
     else ret tt) ;;
    set_ticks 0 ;;
    print_time
  else ret tt.

Notation "' pat <- m ;; k" := (bind m (fun x => match x with pat => k end))
  (at level 61, pat pattern, m at next level, right associativity) : monad_scope.

(* print_row(), court.c: the cells start..end of one row, end included *)
Fixpoint addch_run (n : nat) (ch : ascii) : M unit :=
  match n with
  | O => ret tt
  | S k => emit (Addch ch) ;; addch_run k ch
  end.

Definition print_row (row start end_ : Z) : M unit :=
  emit (Move row start) ;;
  addch_run (Z.to_nat (end_ - start + 1)) ROW_SYMBOL.

(** [mvaddch(i, col, ch)] for [n] consecutive rows from [i] on: the loop of
    [print_col] and of [draw_paddle]. *)
Fixpoint mvaddch_rows (n : nat) (i col : Z) (ch : ascii) : M unit :=
  match n with
  | O => ret tt
  | S k => emit (Mvaddch i col ch) ;; mvaddch_rows k (i + 1) col ch
  end.

(* print_col(), court.c: the rows start..end-1 *)
Definition print_col (col start end_ : Z) : M unit :=
  mvaddch_rows (Z.to_nat (end_ - start)) start col COL_SYMBOL.

Definition print_court (balls : Z) : M unit :=
  c <- gets court ;;
  print_row (top c) (left c) (right c) ;;
  print_col (left c) (top c + 1) (bot c) ;;
  print_row (bot c) (left c) (right c) ;;
  print_balls balls ;;
  print_time.

(** ** paddle.c *)

Definition draw_paddle (pp : pppaddle) : M unit :=
  mvaddch_rows (Z.to_nat (pad_bot pp - pad_top pp + 1))
               (pad_top pp) (pad_col pp) (pad_char pp) ;;
  park_cursor ;;
  emit Refresh.

(** Every field of the struct is assigned, so the fresh memory the C
    function receives does not show in the result. *)
Definition paddle_init (top_ height : Z) : M pppaddle :=
  l <- gets LINES ;;
  r <- get_right_edge ;;
  let pp := {| pad_char := PADDLE_SYMBOL;
               pad_mintop := BORDER;
               pad_maxbot := l - BORDER - 1;
               pad_col := r;
               pad_top := top_;
               pad_bot := top_ + height - 1 |} in
  draw_paddle pp ;;
  ret pp.

Definition new_paddle : M pppaddle :=
  b <- get_bot_edge ;; t <- get_top_edge ;;
  let court_height := b - t - 1 in
  let paddle_height := court_height ÷ 3 in
  l <- gets LINES ;;
  let paddle_top := l ÷ 2 - paddle_height ÷ 2 in
  paddle_init paddle_top paddle_height.

Definition shift_paddle (d : Z) (pp : pppaddle) : pppaddle :=
  {| pad_char := pad_char pp;
     pad_top := pad_top pp + d; pad_bot := pad_bot pp + d; pad_col := pad_col pp;
     pad_mintop := pad_mintop pp; pad_maxbot := pad_maxbot pp |}.

Definition paddle_up (pp : pppaddle) : M pppaddle :=
  if pad_top pp - 1 >? pad_mintop pp then
    emit (Mvaddch (pad_bot pp) (pad_col pp) BLANK) ;;
    let pp := shift_paddle (-1) pp in           (* --pad_top; --pad_bot *)
    emit (Mvaddch (pad_top pp) (pad_col pp) PADDLE_SYMBOL) ;;
    park_cursor ;;
    emit Refresh ;;
    ret pp
  else ret pp.

Definition paddle_down (pp : pppaddle) : M pppaddle :=
  if pad_bot pp + 1 <? pad_maxbot pp then
    emit (Mvaddch (pad_top pp) (pad_col pp) BLANK) ;;
    let pp := shift_paddle 1 pp in              (* ++pad_top; ++pad_bot *)
    emit (Mvaddch (pad_bot pp) (pad_col pp) PADDLE_SYMBOL) ;;
    park_cursor ;;
    emit Refresh ;;
    ret pp
  else ret pp.

Definition paddle_contact (y : Z) (pp : pppaddle) : Z :=
  if (y >=? pad_top pp) && (y <=? pad_bot pp) then CONTACT else NO_CONTACT.

(** ** ball.c *)

Definition set_remain (v : Z) (bp : ppball) : ppball :=
  {| remain := v; x_pos := x_pos bp; y_pos := y_pos bp; x_dir := x_dir bp;
     y_dir := y_dir bp; x_delay := x_delay bp; y_delay := y_delay bp;
     x_count := x_count bp; y_count := y_count bp; symbol := symbol bp |}.
Definition set_x_pos (v : Z) (bp : ppball) : ppball :=
  {| remain := remain bp; x_pos := v; y_pos := y_pos bp; x_dir := x_dir bp;
     y_dir := y_dir bp; x_delay := x_delay bp; y_delay := y_delay bp;
     x_count := x_count bp; y_count := y_count bp; symbol := symbol bp |}.
Definition set_y_pos (v : Z) (bp : ppball) : ppball :=
  {| remain := remain bp; x_pos := x_pos bp; y_pos := v; x_dir := x_dir bp;
     y_dir := y_dir bp; x_delay := x_delay bp; y_delay := y_delay bp;
     x_count := x_count bp; y_count := y_count bp; symbol := symbol bp |}.
Definition set_x_dir (v : Z) (bp : ppball) : ppball :=
  {| remain := remain bp; x_pos := x_pos bp; y_pos := y_pos bp; x_dir := v;
     y_dir := y_dir bp; x_delay := x_delay bp; y_delay := y_delay bp;
     x_count := x_count bp; y_count := y_count bp; symbol := symbol bp |}.
Definition set_y_dir (v : Z) (bp : ppball) : ppball :=
  {| remain := remain bp; x_pos := x_pos bp; y_pos := y_pos bp; x_dir := x_dir bp;
     y_dir := v; x_delay := x_delay bp; y_delay := y_delay bp;
     x_count := x_count bp; y_count := y_count bp; symbol := symbol bp |}.
Definition set_x_delay (v : Z) (bp : ppball) : ppball :=
  {| remain := remain bp; x_pos := x_pos bp; y_pos := y_pos bp; x_dir := x_dir bp;
     y_dir := y_dir bp; x_delay := v; y_delay := y_delay bp;
     x_count := x_count bp; y_count := y_count bp; symbol := symbol bp |}.
Definition set_y_delay (v : Z) (bp : ppball) : ppball :=
  {| remain := remain bp; x_pos := x_pos bp; y_pos := y_pos bp; x_dir := x_dir bp;
     y_dir := y_dir bp; x_delay := x_delay bp; y_delay := v;
     x_count := x_count bp; y_count := y_count bp; symbol := symbol bp |}.
Definition set_x_count (v : Z) (bp : ppball) : ppball :=
  {| remain := remain bp; x_pos := x_pos bp; y_pos := y_pos bp; x_dir := x_dir bp;
     y_dir := y_dir bp; x_delay := x_delay bp; y_delay := y_delay bp;
     x_count := v; y_count := y_count bp; symbol := symbol bp |}.
Definition set_y_count (v : Z) (bp : ppball) : ppball :=
  {| remain := remain bp; x_pos := x_pos bp; y_pos := y_pos bp; x_dir := x_dir bp;
     y_dir := y_dir bp; x_delay := x_delay bp; y_delay := y_delay bp;
     x_count := x_count bp; y_count := v; symbol := symbol bp |}.
Definition set_symbol (v : ascii) (bp : ppball) : ppball :=
  {| remain := remain bp; x_pos := x_pos bp; y_pos := y_pos bp; x_dir := x_dir bp;
     y_dir := y_dir bp; x_delay := x_delay bp; y_delay := y_delay bp;
     x_count := x_count bp; y_count := y_count bp; symbol := v |}.

(** [rand() % (max - min) + min].  With [max - min = 0] the C expression
    divides by zero; [Z.rem r 0] is [r] here, and no court of the enforced
    size leads there. *)
Definition rand_number (min max : Z) : M Z :=
  r <- rand ;;
  ret (Z.rem r (max - min) + min).

Definition start_dir : M Z :=
  r <- rand ;;
  if Z.rem r 2 =? 0 then ret (-1) else ret 1.

Definition ball_init (bp : ppball) : M ppball :=
  (* positions *)
  t <- get_top_edge ;; b <- get_bot_edge ;;
  y <- rand_number (t + 1) (b - 1) ;;
  let bp := set_y_pos y bp in
  l <- get_left_edge ;; r <- get_right_edge ;;
  x <- rand_number (l + 1) (r - 1) ;;
  let bp := set_x_pos x bp in
  (* directions *)
  yd <- start_dir ;;
  let bp := set_y_dir yd bp in
  xd <- start_dir ;;
  let bp := set_x_dir xd bp in
  (* delay *)
  ydel <- rand_number 1 MAX_DELAY ;;
  let bp := set_y_count ydel (set_y_delay ydel bp) in
  xdel <- rand_number 1 (MAX_DELAY ÷ 2) ;;
  let bp := set_x_count xdel (set_x_delay xdel bp) in
  (* symbol *)
  let bp := set_symbol BALL_SYMBOL bp in
  (* lose one ball (life) every initialization *)
  ret (set_remain (remain bp - 1) bp).

Definition draw_ball (bp : ppball) : M unit :=
  emit (Mvaddch (y_pos bp) (x_pos bp) (symbol bp)) ;;
  park_cursor ;;
  emit Refresh.

(** [malloc] hands out memory with unspecified contents, [junk]; only
    [remain] is assigned. *)
Definition new_ball (junk : ppball) : M ppball :=
  ret (set_remain NUM_BALLS junk).

(** One axis of [ball_move]:
    [if (delay > 0 && --count == 0) { pos += dir; count = delay; moved = 1; }] *)
Definition ball_move (bp : ppball) : M ppball :=
  let moved := false in
  let y_cur := y_pos bp in
  let x_cur := x_pos bp in
  (* vertical counters *)
  let '(bp, moved) :=
    if y_delay bp >? 0 then
      let bp := set_y_count (y_count bp - 1) bp in
      if y_count bp =? 0
      then (set_y_count (y_delay bp) (set_y_pos (y_pos bp + y_dir bp) bp), true)
      else (bp, moved)
    else (bp, moved) in
  (* horizontal counters *)
  let '(bp, moved) :=
    if x_delay bp >? 0 then
      let bp := set_x_count (x_count bp - 1) bp in
      if x_count bp =? 0
      then (set_x_count (x_delay bp) (set_x_pos (x_pos bp + x_dir bp) bp), true)
      else (bp, moved)
    else (bp, moved) in
  (if moved : bool then
     emit (Mvaddch y_cur x_cur BLANK) ;;
     draw_ball bp
   else ret tt) ;;
  ret bp.

(** Returns the C function's return value and the ball it leaves behind. *)
Definition bounce_or_lose (bp : ppball) (pp : pppaddle) : M (Z * ppball) :=
  let return_val := NO_CONTACT in
  t <- get_top_edge ;;
  '(bp, return_val) <-
    (if y_pos bp =? t + 1 then                           (* top *)
       ret (set_y_dir 1 bp, BOUNCE)
     else
       b <- get_bot_edge ;;
       if y_pos bp =? b - 1 then                         (* bottom *)
         ret (set_y_dir (-1) bp, BOUNCE)
       else ret (bp, return_val)) ;;
  l <- get_left_edge ;;
  if x_pos bp =? l + 1 then                              (* left *)
    ret (BOUNCE, set_x_dir 1 bp)
  else
    r <- get_right_edge ;;
    if x_pos bp =? r - 1 then                            (* right *)
      if paddle_contact (y_pos bp) pp =? CONTACT then    (* it hit the paddle *)
        xdel <- rand_number 1 (MAX_DELAY ÷ 2) ;;
        let bp := set_x_delay xdel bp in
        ydel <- rand_number 1 MAX_DELAY ;;
        let bp := set_y_delay ydel bp in
        ret (BOUNCE, set_x_dir (-1) bp)
      else
        emit (Mvaddch (y_pos bp) (x_pos bp) BLANK) ;;    (* remove old ball *)
        ret (LOSE, bp)
    else ret (return_val, bp).

Definition get_balls_left (bp : ppball) : Z := remain bp.

Definition serve (bp : ppball) : M ppball :=
  bp <- ball_init bp ;;
  draw_ball bp ;;
  print_balls (remain bp) ;;
  ret bp.

(** ** pong.c *)

(* static struct pppaddle * paddle; static struct ppball * ball; *)
Record pong := { paddle : pppaddle; ball : ppball }.

Definition wrap_up : M unit :=
  emit (SetTicker 0) ;;
  emit Endwin.

Definition is_min_size : M unit :=
  l <- gets LINES ;; c <- gets COLS ;;
  if (l <? MIN_LINES) || (c <? MIN_COLS) then
    wrap_up ;;
    emit Stderr_too_small ;;
    exit 1
  else ret tt.

Definition exit_message : M unit :=
  l <- gets LINES ;; c <- gets COLS ;;
  let y := l ÷ 2 in
  let x := c ÷ 2 - EXIT_MSG_LEN ÷ 2 in
  emit Standout ;;
  m <- get_mins ;; s <- get_secs ;;
  emit (MvprintwLasted y x m s) ;;
  emit Standend ;;
  park_cursor ;;
  emit Refresh ;;
  emit (Sleep 2).

(** The terminal modes and the signal dispositions are left out; [junk] is
    the content of the memory [new_ball] obtains. *)
Definition set_up (junk : ppball) : M pong :=
  is_min_size ;;
  l <- gets LINES ;; c <- gets COLS ;;
  (* court dimensions *)
  let top_ := BORDER in
  let right_ := c - BORDER - 1 in
  let bot_ := l - BORDER - 1 in
  let left_ := BORDER in
  (* objects *)
  court_init top_ right_ bot_ left_ ;;
  p <- new_paddle ;;
  b <- new_ball junk ;;
  clock_init ;;
  print_court NUM_BALLS ;;
  emit (SetTicker (1000 ÷ TICKS_PER_SEC)) ;;
  ret {| paddle := p; ball := b |}.

Definition is_next_round (g : pong) : M pong :=
  '(rv, b) <- bounce_or_lose (ball g) (paddle g) ;;
  let g := {| paddle := paddle g; ball := b |} in
  if rv =? LOSE then
    if get_balls_left (ball g) >? 0 then            (* more balls left *)
      b <- serve (ball g) ;;
      ret {| paddle := paddle g; ball := b |}
    else                                            (* no more balls *)
      exit_message ;;
      wrap_up ;;
      exit 0
  else ret g.

Definition up_paddle (g : pong) : M pong :=
  p <- paddle_up (paddle g) ;;
  is_next_round {| paddle := p; ball := ball g |}.

Definition down_paddle (g : pong) : M pong :=
  p <- paddle_down (paddle g) ;;
  is_next_round {| paddle := p; ball := ball g |}.

Definition alarm_handler (g : pong) : M pong :=
  clock_tick ;;
  b <- ball_move (ball g) ;;
  is_next_round {| paddle := paddle g; ball := b |}.

(** What reaches the process while it runs: a SIGALRM, or a key for the
    pending [getch()]. *)
Inductive input :=
| Alarm
| Key (c : ascii).

(** The [while] loop of [main] over a finite schedule of inputs.
    [in_getch] says that the test on the balls left was already passed and the
    loop is waiting for a key.  A schedule that runs out leaves the process
    waiting, with the state returned.  The schedule is followed up to the
    key Q: the alarms that still arrive while [exit_message] sleeps, before
    [wrap_up] stops the ticker, are not part of it. *)
Fixpoint main_loop (ins : list input) (in_getch : bool) (g : pong) : M pong :=
  if negb in_getch && negb (get_balls_left (ball g) >=? 0) then
    exit_message ;; wrap_up ;; exit 0
  else
    match ins with
    | [] => ret g
    | Alarm :: rest =>
        g <- alarm_handler g ;;
        main_loop rest true g
    | Key c :: rest =>
        if Ascii.eqb c "Q" then
          exit_message ;; wrap_up ;; exit 0
        else
          g <- (if Ascii.eqb c "k" then up_paddle g
                else if Ascii.eqb c "m" then down_paddle g
                else ret g) ;;
          main_loop rest false g
    end.

Definition main (junk : ppball) (ins : list input) : M pong :=
  g <- set_up junk ;;
  b <- serve (ball g) ;;
  main_loop ins false {| paddle := paddle g; ball := b |}.

(** ** Running a computation *)

Definition value {A} (r : res A * world) : option A :=
  match fst r with
  | Val a => Some a
  | Exited _ => None
  end.

(** The court and the curses globals of a terminal of [l] lines and [c]
    columns, as [set_up] leaves them. *)
Definition terminal (l c : Z) (w : world) : Prop :=
  LINES w = l /\ COLS w = c /\
  court w = {| top := BORDER; right := c - BORDER - 1;
               bot := l - BORDER - 1; left := BORDER |}.

(** A world for examples: a terminal of [l] lines and [c] columns before
    [set_up], with a given tape for [rand()]. *)
Definition boot (l c : Z) (tape : nat -> N) : world :=
  {| LINES := l; COLS := c; rand_tape := tape; rand_next := O; screen := [];
     court := {| top := 0; right := 0; bot := 0; left := 0 |};
     clock := {| mins := 0; secs := 0; ticks := 0 |} |}.

(** The same terminal once [set_up] has laid out the court. *)
Definition ready (l c : Z) (tape : nat -> N) : world :=
  {| LINES := l; COLS := c; rand_tape := tape; rand_next := O; screen := [];
     court := {| top := BORDER; right := c - BORDER - 1;
                 bot := l - BORDER - 1; left := BORDER |};
     clock := {| mins := 0; secs := 0; ticks := 0 |} |}.

(** A tape given by its first cells, zero afterwards. *)
Definition tape_of (l : list N) : nat -> N := fun i => nth i l 0%N.

Definition zero_ball : ppball :=
  {| remain := 0; x_pos := 0; y_pos := 0; x_dir := 0; y_dir := 0;
     x_delay := 0; y_delay := 0; x_count := 0; y_count := 0;
     symbol := BLANK |}.

(** The paddle of a terminal of 11 lines and 40 columns: one row, in the
    middle of the right border. *)
Definition small_paddle : pppaddle :=
  {| pad_char := PADDLE_SYMBOL; pad_top := 5; pad_bot := 5; pad_col := 36;
     pad_mintop := 3; pad_maxbot := 7 |}.

(** A ball in the upper right corner of that court's interior, with
    [balls] balls left. *)
Definition corner_ball (balls : Z) : ppball :=
  {| remain := balls; x_pos := 35; y_pos := 4; x_dir := 1; y_dir := -1;
     x_delay := 1; y_delay := 1; x_count := 1; y_count := 1;
     symbol := BALL_SYMBOL |}.

(** The small terminal with the court laid out and an all-zero tape. *)
Definition small_world : world := ready 11 40 (tape_of []).

(** A ball in the middle of that court, heading down and left, that steps
    on each axis every [d] ticks. *)
Definition center_ball (d : Z) : ppball :=
  {| remain := 2; x_pos := 20; y_pos := 5; x_dir := -1; y_dir := 1;
     x_delay := d; y_delay := d; x_count := d; y_count := d;
     symbol := BALL_SYMBOL |}.

(** ** Vocabulary of the statements *)

(** The clock as it stands [k] ticks after [clock_init]. *)
Definition clock_at (k : Z) (t : timer) : Prop :=
  ticks t = k mod TICKS_PER_SEC /\
  secs t = (k / TICKS_PER_SEC) mod MINUTE /\
  mins t = k / TICKS_PER_SEC / MINUTE.

(** The range of a 32-bit [int]. *)
Definition in_int_range (z : Z) : Prop := - 2 ^ 31 <= z < 2 ^ 31.

(** The two commands of the paddle, and a sequence of them. *)
Inductive paddle_move := Up | Down.

Definition paddle_step (mv : paddle_move) (pp : pppaddle) : M pppaddle :=
  match mv with
  | Up => paddle_up pp
  | Down => paddle_down pp
  end.

Fixpoint paddle_moves (mvs : list paddle_move) (pp : pppaddle) : M pppaddle :=
  match mvs with
  | [] => ret pp
  | mv :: rest => pp <- paddle_step mv pp ;; paddle_moves rest pp
  end.

Definition in_bounds (pp : pppaddle) : Prop :=
  pad_mintop pp <= pad_top pp /\ pad_bot pp <= pad_maxbot pp.

(** Rows the paddle covers. *)
Definition paddle_height (pp : pppaddle) : Z := pad_bot pp - pad_top pp + 1.

(** Rows between the top and the bottom border, as [new_paddle] counts them. *)
Definition court_height (c : ppcourt) : Z := bot c - top c - 1.

(** Strictly inside the borders of the court. *)
Definition inside (c : ppcourt) (bp : ppball) : Prop :=
  top c < y_pos bp < bot c /\ left c < x_pos bp < right c.

(** The [i]-th value [rand()] returns from the world [w] on. *)
Definition drawn (w : world) (i : nat) : Z :=
  Z.of_N (rand_tape w (i + rand_next w)%nat).

(** [n] calls of [serve] on the same ball. *)
Fixpoint serves (n : nat) (bp : ppball) : M ppball :=
  match n with
  | O => ret bp
  | S k => bp <- serve bp ;; serves k bp
  end.

(** *** Further vocabulary *)

(** The paddle clear of the two rows that bound it. *)
Definition off_borders (pp : pppaddle) : Prop :=
  pad_mintop pp < pad_top pp /\ pad_bot pp < pad_maxbot pp.

(** The character the newest [mvaddch] of a log left on the cell [(y, x)], if
    one wrote there. *)
Fixpoint shown (s : list event) (y x : Z) : option ascii :=
  match s with
  | [] => None
  | Mvaddch y' x' ch :: rest =>
      if (y' =? y) && (x' =? x) then Some ch else shown rest y x
  | _ :: rest => shown rest y x
  end.

(** The log [s] shows the paddle [pp], given that it started as [s0]: the
    paddle's symbol on the rows the paddle covers; on the other rows of its
    column a blank or what [s0] had; everywhere else what [s0] had. *)
Definition paddle_drawn (s0 s : list event) (pp : pppaddle) : Prop :=
  forall y x : Z,
    (x = pad_col pp -> pad_top pp <= y <= pad_bot pp ->
     shown s y x = Some PADDLE_SYMBOL) /\
    (x = pad_col pp -> ~ pad_top pp <= y <= pad_bot pp ->
     shown s y x = Some BLANK \/ shown s y x = shown s0 y x) /\
    (x <> pad_col pp -> shown s y x = shown s0 y x).

(** How many times a log printed the time, and the time it printed last. *)
Fixpoint time_prints (s : list event) : nat :=
  match s with
  | [] => O
  | PrintwTime _ _ :: rest => S (time_prints rest)
  | _ :: rest => time_prints rest
  end.

Fixpoint last_time (s : list event) : option (Z * Z) :=
  match s with
  | [] => None
  | PrintwTime m sec :: _ => Some (m, sec)
  | _ :: rest => last_time rest
  end.

(** What a call may change in the world besides the screen and the position
    on the tape of [rand()]: nothing. *)
Definition same_setting (w w' : world) : Prop :=
  LINES w' = LINES w /\ COLS w' = COLS w /\ court w' = court w /\
  clock w' = clock w /\ rand_tape w' = rand_tape w.

(** [n] calls of [ball_move] on the same ball. *)
Fixpoint ball_moves (n : nat) (bp : ppball) : M ppball :=
  match n with
  | O => ret bp
  | S k => bp <- ball_move bp ;; ball_moves k bp
  end.

(** Both directions are unit steps, and on a trigger row or column the ball
    heads back into the court. *)
Definition heading_in (c : ppcourt) (bp : ppball) : Prop :=
  (y_dir bp = 1 \/ y_dir bp = -1) /\
  (x_dir bp = 1 \/ x_dir bp = -1) /\
  (y_pos bp = top c + 1 -> y_dir bp = 1) /\
  (y_pos bp = bot c - 1 -> y_dir bp = -1) /\
  (x_pos bp = left c + 1 -> x_dir bp = 1) /\
  (x_pos bp = right c - 1 -> x_dir bp = -1).

(** The alarms of a schedule. *)
Fixpoint alarms (ins : list input) : nat :=
  match ins with
  | [] => O
  | Alarm :: rest => S (alarms rest)
  | Key _ :: rest => alarms rest
  end.

(** ** Tactics *)

(** Unfolds the plumbing of the monad and computes. *)
Ltac run_monad :=
  cbv beta iota delta
    [bind ret gets modify emit exit park_cursor rand
     get_top_edge get_bot_edge get_left_edge get_right_edge
     get_mins get_secs set_ticks set_secs set_mins];
  cbn [fst snd LINES COLS rand_tape rand_next screen court clock
       set_screen set_clock set_court set_rand_next
       mins secs ticks top bot left right].

(** Splits on the first boolean test the goal is stuck on. *)
Ltac split_test :=
  match goal with
  | |- context [if ?b then _ else _] =>
      let E := fresh "E" in destruct b eqn:E
  end.

(** Turns the boolean tests among the hypotheses into propositions. *)
Ltac reflect_tests :=
  repeat match goal with
         | H : (_ =? _) = true |- _ => apply Z.eqb_eq in H
         | H : (_ =? _) = false |- _ => apply Z.eqb_neq in H
         | H : (_ >? _) = true |- _ => apply Z.gtb_lt in H
         | H : (_ >? _) = false |- _ => rewrite Z.gtb_ltb in H; apply Z.ltb_ge in H
         | H : (_ <? _) = true |- _ => apply Z.ltb_lt in H
         | H : (_ <? _) = false |- _ => apply Z.ltb_ge in H
         | H : (_ >=? _) = true |- _ => apply Z.geb_le in H
         | H : (_ <=? _) = true |- _ => apply Z.leb_le in H
         | H : (_ <=? _) = false |- _ => apply Z.leb_gt in H
         end.

(** ** clock.c *)

Module Clock.

Lemma clock_tick_returns (w : world) :
  exists w', clock_tick w = (Val tt, w') /\
    forall k, clock_at k (clock w) -> clock_at (k + 1) (clock w').
Proof.
  unfold clock_tick, print_time. run_monad.
  destruct (ticks (clock w) + 1 =? TICKS_PER_SEC) eqn:Et; run_monad.
  - destruct (secs (clock w) + 1 =? MINUTE) eqn:Es; run_monad;
      (eexists; split; [reflexivity|]);
      intros k (Ht & Hs & Hm); apply Z.eqb_eq in Et;
      first [apply Z.eqb_eq in Es | apply Z.eqb_neq in Es];
      unfold clock_at, TICKS_PER_SEC, MINUTE in *; run_monad;
      repeat split; Z.to_euclidean_division_equations; lia.
  - eexists; split; [reflexivity|].
    intros k (Ht & Hs & Hm); apply Z.eqb_neq in Et.
    unfold clock_at, TICKS_PER_SEC, MINUTE in *; run_monad.
    repeat split; Z.to_euclidean_division_equations; lia.
Qed.

Lemma times_clock_tick (n : nat) :
  forall (w : world) (k : Z),
    clock_at k (clock w) ->
    exists w', times n clock_tick w = (Val tt, w') /\
               clock_at (k + Z.of_nat n) (clock w').
Proof.
  induction n as [|n IH]; intros w k Hk.
  - exists w. split; [reflexivity|]. now rewrite Z.add_0_r.
  - destruct (clock_tick_returns w) as (w1 & Hrun & Hstep).
    destruct (IH w1 (k + 1) (Hstep k Hk)) as (w2 & Hrun2 & Hat).
    exists w2. split.
    + cbn [times]. unfold bind. now rewrite Hrun.
    + now replace (k + Z.of_nat (S n)) with (k + 1 + Z.of_nat n) by lia.
Qed.

Lemma clock_init_at (w : world) :
  exists w', clock_init w = (Val tt, w') /\ clock_at 0 (clock w').
Proof.
  eexists; split; [reflexivity|]. cbn. repeat split.
Qed.

Lemma clock_after (N : nat) (w : world) :
  exists w', (clock_init ;; times N clock_tick) w = (Val tt, w') /\
             clock_at (Z.of_nat N) (clock w').
Proof.
  destruct (clock_init_at w) as (w0 & H0 & Hat0).
  destruct (times_clock_tick N w0 0 Hat0) as (w1 & H1 & Hat1).
  exists w1. split; [|exact Hat1].
  unfold bind. now rewrite H0.
Qed.

(** No field of the clock leaves the range of an [int] during the first
    [50 * 60 * 2^31] ticks (more than four thousand years of play), so on
    every such run the model over [Z] is the C program. *)
Lemma clock_in_int_range (N : nat) (w : world) :
  Z.of_nat N < TICKS_PER_SEC * MINUTE * 2 ^ 31 ->
  exists w', (clock_init ;; times N clock_tick) w = (Val tt, w') /\
             in_int_range (ticks (clock w')) /\
             in_int_range (secs (clock w')) /\
             in_int_range (mins (clock w')).
Proof.
  intros HN. destruct (clock_after N w) as (w' & Hrun & Ht & Hs & Hm).
  exists w'. split; [exact Hrun|].
  unfold in_int_range, TICKS_PER_SEC, MINUTE in *.
  rewrite Ht, Hs, Hm. change (2 ^ 31) with 2147483648 in *.
  repeat split; Z.to_euclidean_division_equations; lia.
Qed.

(** C2.  After [clock_init] and [N] calls of [clock_tick], for every [N] and
    with [TICKS_PER_SEC] = 50, the calls return and
    [get_secs() + 60 * get_mins()] is [N / 50] rounded down while [get_secs()]
    is that number modulo 60; after 150 ticks the clock reads 0 minutes and
    3 seconds. *)
Theorem clock_counts_whole_seconds :
  (forall (N : nat) (w : world),
      exists s m w',
        (clock_init ;; times N clock_tick ;;
         s <- get_secs ;; m <- get_mins ;; ret (s, m)) w = (Val (s, m), w') /\
        s + 60 * m = Z.of_nat N / TICKS_PER_SEC /\
        s = (Z.of_nat N / TICKS_PER_SEC) mod 60) /\
  (forall w : world,
      exists w',
        (clock_init ;; times 150 clock_tick ;;
         s <- get_secs ;; m <- get_mins ;; ret (s, m)) w = (Val (3, 0), w')) /\
  TICKS_PER_SEC = 50.
Proof.
  assert (A : forall (N : nat) (w : world),
      exists s m w',
        (clock_init ;; times N clock_tick ;;
         s <- get_secs ;; m <- get_mins ;; ret (s, m)) w = (Val (s, m), w') /\
        s + 60 * m = Z.of_nat N / TICKS_PER_SEC /\
        s = (Z.of_nat N / TICKS_PER_SEC) mod 60).
  { intros N w. destruct (clock_after N w) as (w' & Hrun & Ht & Hs & Hm).
    exists (secs (clock w')), (mins (clock w')), w'. split.
    - unfold bind in Hrun |- *.
      destruct (clock_init w) as [[[]|c] w0]; [|discriminate].
      rewrite Hrun. reflexivity.
    - rewrite Hs, Hm. unfold TICKS_PER_SEC, MINUTE.
      split; Z.to_euclidean_division_equations; lia. }
  split; [exact A|]. split; [|reflexivity].
  intros w. destruct (A 150%nat w) as (s & m & w' & Hrun & Hsum & Hsec).
  exists w'. rewrite Hrun.
  change (Z.of_nat 150 / TICKS_PER_SEC) with 3 in *.
  change (3 mod 60) with 3 in Hsec. subst s.
  replace m with 0 by lia. reflexivity.
Qed.

End Clock.

(** ** paddle.c *)

Module Paddle.

Lemma mvaddch_rows_returns (n : nat) :
  forall (i col : Z) (ch : ascii) (w : world),
    exists s, mvaddch_rows n i col ch w = (Val tt, set_screen s w).
Proof.
  induction n as [|n IH]; intros i col ch w.
  - exists (screen w). destruct w; reflexivity.
  - cbn [mvaddch_rows]. run_monad.
    destruct (IH (i + 1) col ch (set_screen (Mvaddch i col ch :: screen w) w))
      as (s & Hs).
    rewrite Hs. exists s. reflexivity.
Qed.

Lemma draw_paddle_returns (pp : pppaddle) (w : world) :
  exists s, draw_paddle pp w = (Val tt, set_screen s w).
Proof.
  unfold draw_paddle. run_monad.
  destruct (mvaddch_rows_returns (Z.to_nat (pad_bot pp - pad_top pp + 1))
              (pad_top pp) (pad_col pp) (pad_char pp) w) as (s & Hs).
  rewrite Hs. run_monad. eexists. reflexivity.
Qed.

(** The paddle [new_paddle] returns, field by field. *)
Lemma new_paddle_returns (w : world) :
  exists s,
    new_paddle w =
    (Val {| pad_char := PADDLE_SYMBOL;
            pad_top := LINES w ÷ 2 - (court_height (court w) ÷ 3) ÷ 2;
            pad_bot := LINES w ÷ 2 - (court_height (court w) ÷ 3) ÷ 2
                       + court_height (court w) ÷ 3 - 1;
            pad_col := right (court w);
            pad_mintop := BORDER;
            pad_maxbot := LINES w - BORDER - 1 |},
     set_screen s w).
Proof.
  unfold new_paddle, paddle_init, court_height. run_monad.
  match goal with
  | |- context [draw_paddle ?p w] =>
      destruct (draw_paddle_returns p w) as (s & Hs); rewrite Hs
  end.
  exists s. reflexivity.
Qed.

Lemma paddle_up_noop (pp : pppaddle) (w : world) :
  pad_top pp - 1 <= pad_mintop pp -> paddle_up pp w = (Val pp, w).
Proof.
  intros H. unfold paddle_up.
  destruct (pad_top pp - 1 >? pad_mintop pp) eqn:E; [|reflexivity].
  apply Z.gtb_lt in E. lia.
Qed.

Lemma paddle_down_noop (pp : pppaddle) (w : world) :
  pad_bot pp + 1 >= pad_maxbot pp -> paddle_down pp w = (Val pp, w).
Proof.
  intros H. unfold paddle_down.
  destruct (pad_bot pp + 1 <? pad_maxbot pp) eqn:E; [|reflexivity].
  apply Z.ltb_lt in E. lia.
Qed.

Lemma paddle_step_keeps_bounds (mv : paddle_move) (pp : pppaddle) (w : world) :
  in_bounds pp ->
  exists pp' w', paddle_step mv pp w = (Val pp', w') /\ in_bounds pp'.
Proof.
  intros [Ht Hb]. destruct mv; cbn [paddle_step].
  - unfold paddle_up.
    destruct (pad_top pp - 1 >? pad_mintop pp) eqn:E; run_monad.
    + do 2 eexists; split; [reflexivity|].
      apply Z.gtb_lt in E. unfold in_bounds, shift_paddle; cbn. lia.
    + do 2 eexists; split; [reflexivity|]. now split.
  - unfold paddle_down.
    destruct (pad_bot pp + 1 <? pad_maxbot pp) eqn:E; run_monad.
    + do 2 eexists; split; [reflexivity|].
      apply Z.ltb_lt in E. unfold in_bounds, shift_paddle; cbn. lia.
    + do 2 eexists; split; [reflexivity|]. now split.
Qed.

Lemma paddle_moves_keep_bounds (mvs : list paddle_move) :
  forall (pp : pppaddle) (w : world),
    in_bounds pp ->
    exists pp' w', paddle_moves mvs pp w = (Val pp', w') /\ in_bounds pp'.
Proof.
  induction mvs as [|mv rest IH]; intros pp w Hin.
  - exists pp, w. now split.
  - destruct (paddle_step_keeps_bounds mv pp w Hin) as (pp1 & w1 & H1 & Hin1).
    destruct (IH pp1 w1 Hin1) as (pp2 & w2 & H2 & Hin2).
    exists pp2, w2. split; [|exact Hin2].
    cbn [paddle_moves]. unfold bind. now rewrite H1.
Qed.

(** On a terminal of at least [MIN_LINES] lines the new paddle is within its
    bounds. *)
Lemma new_paddle_in_bounds (l c : Z) (w : world) :
  MIN_LINES <= l -> terminal l c w ->
  exists pp w', new_paddle w = (Val pp, w') /\ in_bounds pp.
Proof.
  intros Hl (HL & HC & Hcourt).
  destruct (new_paddle_returns w) as (s & Hs).
  do 2 eexists; split; [exact Hs|].
  unfold in_bounds, court_height; cbn [pad_mintop pad_top pad_bot pad_maxbot].
  rewrite Hcourt, HL; cbn [top bot]. unfold BORDER, MIN_LINES in *.
  split; Z.to_euclidean_division_equations; lia.
Qed.

(** C3.  On a terminal of the enforced size, the paddle [new_paddle] makes
    and every paddle reached from it by a sequence of [paddle_up] and
    [paddle_down] calls satisfy [pad_mintop <= pad_top] and
    [pad_bot <= pad_maxbot]; [paddle_up] called with
    [pad_top - 1 <= pad_mintop] and [paddle_down] called with
    [pad_bot + 1 >= pad_maxbot] change nothing. *)
Theorem paddle_stays_in_bounds :
  (forall (l c : Z) (w : world) (mvs : list paddle_move),
      MIN_LINES <= l -> MIN_COLS <= c -> terminal l c w ->
      exists pp w1 pp' w2,
        new_paddle w = (Val pp, w1) /\
        paddle_moves mvs pp w1 = (Val pp', w2) /\
        pad_mintop pp' <= pad_top pp' /\ pad_bot pp' <= pad_maxbot pp') /\
  (forall (pp : pppaddle) (w : world),
      pad_top pp - 1 <= pad_mintop pp -> paddle_up pp w = (Val pp, w)) /\
  (forall (pp : pppaddle) (w : world),
      pad_bot pp + 1 >= pad_maxbot pp -> paddle_down pp w = (Val pp, w)).
Proof.
  split; [|split; [exact paddle_up_noop | exact paddle_down_noop]].
  intros l c w mvs Hl _ Hterm.
  destruct (new_paddle_in_bounds l c w Hl Hterm) as (pp & w1 & Hnew & Hin).
  destruct (paddle_moves_keep_bounds mvs pp w1 Hin) as (pp' & w2 & Hmv & Hin').
  exists pp, w1, pp', w2. destruct Hin'. auto.
Qed.

(** C4, as the code has it.  On the terminal [set_up] prepares, [new_paddle]
    sets [pad_mintop] to [BORDER], which is the row of the court's top
    border, and [pad_maxbot] to [LINES - BORDER - 1], which is the row of the
    court's bottom border: no margin is added to the court's rows. *)
Theorem paddle_bounds_are_court_borders :
  forall (l c : Z) (w : world),
    MIN_LINES <= l -> MIN_COLS <= c -> terminal l c w ->
    exists pp w',
      new_paddle w = (Val pp, w') /\
      pad_mintop pp = BORDER /\ pad_mintop pp = top (court w) /\
      pad_maxbot pp = l - BORDER - 1 /\ pad_maxbot pp = bot (court w).
Proof.
  intros l c w _ _ (HL & HC & Hcourt).
  destruct (new_paddle_returns w) as (s & Hs).
  do 2 eexists; split; [exact Hs|].
  cbn [pad_mintop pad_maxbot]. rewrite Hcourt, HL; cbn [top bot]. auto.
Qed.

(** C9.  [new_paddle] makes a paddle whose height is the height of the
    court's interior divided by 3 with C's integer division; the height is at
    least 1 when the interior has at least 3 rows, and is 3 when the
    interior has 9 rows. *)
Theorem new_paddle_height :
  forall w : world,
    exists pp w',
      new_paddle w = (Val pp, w') /\
      paddle_height pp = court_height (court w) ÷ 3 /\
      (3 <= court_height (court w) -> 1 <= paddle_height pp) /\
      (court_height (court w) = 9 -> paddle_height pp = 3).
Proof.
  intros w. destruct (new_paddle_returns w) as (s & Hs).
  do 2 eexists; split; [exact Hs|].
  unfold paddle_height; cbn [pad_top pad_bot].
  split; [lia|]. split.
  - intros H. Z.to_euclidean_division_equations; lia.
  - intros H. rewrite H. change (9 ÷ 3) with 3.
    Z.to_euclidean_division_equations; lia.
Qed.

End Paddle.

(** ** ball.c *)

Module Ball.

Lemma drawn_in_range (w : world) (i : nat) (m lo : Z) :
  0 < m -> lo <= Z.rem (drawn w i) m + lo <= lo + m - 1.
Proof.
  intros Hm. unfold drawn.
  pose proof (N2Z.is_nonneg (rand_tape w (i + rand_next w)%nat)) as Hr.
  pose proof (Z.rem_bound_pos _ m Hr Hm). lia.
Qed.

(** What [ball_init] leaves in each field, from the six values it draws. *)
Lemma ball_init_returns (bp : ppball) (w : world) :
  exists bp',
    ball_init bp w = (Val bp', set_rand_next (6 + rand_next w) w) /\
    remain bp' = remain bp - 1 /\
    y_pos bp' = Z.rem (drawn w 0) (bot (court w) - 1 - (top (court w) + 1))
                + (top (court w) + 1) /\
    x_pos bp' = Z.rem (drawn w 1) (right (court w) - 1 - (left (court w) + 1))
                + (left (court w) + 1) /\
    (y_dir bp' = -1 \/ y_dir bp' = 1) /\
    (x_dir bp' = -1 \/ x_dir bp' = 1) /\
    y_delay bp' = Z.rem (drawn w 4) (MAX_DELAY - 1) + 1 /\
    x_delay bp' = Z.rem (drawn w 5) (MAX_DELAY ÷ 2 - 1) + 1 /\
    y_count bp' = y_delay bp' /\
    x_count bp' = x_delay bp' /\
    symbol bp' = BALL_SYMBOL.
Proof.
  unfold ball_init, rand_number, start_dir. run_monad.
  split_test; run_monad; split_test; run_monad;
    (eexists; split; [reflexivity|]); unfold drawn; cbn; tauto.
Qed.

Lemma draw_ball_returns (bp : ppball) (w : world) :
  draw_ball bp w =
  (Val tt, set_screen (Refresh :: Move (LINES w - 1) (COLS w - 1)
                       :: Mvaddch (y_pos bp) (x_pos bp) (symbol bp)
                       :: screen w) w).
Proof. reflexivity. Qed.

Lemma print_balls_returns (n : Z) (w : world) :
  print_balls n w =
  (Val tt, set_screen (Refresh :: Move (LINES w - 1) (COLS w - 1)
                       :: MvprintwBalls (top (court w) - 1) (left (court w)) n
                       :: screen w) w).
Proof. reflexivity. Qed.

(** [serve] returns the ball of [ball_init], having drawn it and printed the
    number of balls left. *)
Lemma serve_returns (bp : ppball) (w : world) :
  exists bp',
    ball_init bp w = (Val bp', set_rand_next (6 + rand_next w) w) /\
    serve bp w =
    (Val bp',
     set_screen
       (Refresh :: Move (LINES w - 1) (COLS w - 1)
        :: MvprintwBalls (top (court w) - 1) (left (court w)) (remain bp')
        :: Refresh :: Move (LINES w - 1) (COLS w - 1)
        :: Mvaddch (y_pos bp') (x_pos bp') (symbol bp')
        :: screen w)
       (set_rand_next (6 + rand_next w) w)).
Proof.
  destruct (ball_init_returns bp w) as (bp' & Hinit & _).
  exists bp'. split; [exact Hinit|].
  unfold serve, bind. rewrite Hinit, draw_ball_returns, print_balls_returns.
  reflexivity.
Qed.

Lemma serve_decrements (bp : ppball) (w : world) :
  exists bp' w',
    serve bp w = (Val bp', w') /\
    get_balls_left bp' = get_balls_left bp - 1.
Proof.
  destruct (serve_returns bp w) as (bp' & Hinit & Hserve).
  destruct (ball_init_returns bp w) as (bp2 & Hinit2 & Hrem & _).
  rewrite Hinit in Hinit2. injection Hinit2 as <-.
  exists bp'. eexists. split; [exact Hserve|exact Hrem].
Qed.

Lemma serves_decrement (n : nat) :
  forall (bp : ppball) (w : world),
    exists bp' w',
      serves n bp w = (Val bp', w') /\
      get_balls_left bp' = get_balls_left bp - Z.of_nat n.
Proof.
  induction n as [|n IH]; intros bp w.
  - exists bp, w. split; [reflexivity|lia].
  - destruct (serve_decrements bp w) as (bp1 & w1 & H1 & R1).
    destruct (IH bp1 w1) as (bp2 & w2 & H2 & R2).
    exists bp2, w2. split.
    + cbn [serves]. unfold bind. now rewrite H1.
    + lia.
Qed.

Lemma ball_move_keeps_remain (bp : ppball) (w : world) :
  exists bp' w', ball_move bp w = (Val bp', w') /\ remain bp' = remain bp.
Proof.
  unfold ball_move, draw_ball. run_monad.
  destruct (y_delay bp >? 0); cbn;
    [destruct (y_count bp - 1 =? 0)|]; cbn;
    (destruct (x_delay bp >? 0); cbn;
     [destruct (x_count bp - 1 =? 0)|]); cbn;
    do 2 eexists; split; reflexivity.
Qed.

(** [bounce_or_lose] always returns, with the count of balls as it was. *)
Lemma bounce_or_lose_total (bp : ppball) (pp : pppaddle) (w : world) :
  exists rv bp' w',
    bounce_or_lose bp pp w = (Val (rv, bp'), w') /\
    remain bp' = remain bp.
Proof.
  unfold bounce_or_lose, rand_number. run_monad.
  repeat (split_test; run_monad);
    do 3 eexists; split; reflexivity.
Qed.

(** The right edge without the paddle, with the ball also on a trigger row:
    the value is [LOSE], the vertical direction was turned all the same and
    the ball's cell was blanked. *)
Lemma lose_at_right_edge (bp : ppball) (pp : pppaddle) (w : world) :
  y_pos bp = top (court w) + 1 \/ y_pos bp = bot (court w) - 1 ->
  x_pos bp = right (court w) - 1 ->
  left (court w) + 1 <> right (court w) - 1 ->
  paddle_contact (y_pos bp) pp = NO_CONTACT ->
  bounce_or_lose bp pp w =
  (Val (LOSE, set_y_dir (if y_pos bp =? top (court w) + 1 then 1 else -1) bp),
   set_screen (Mvaddch (y_pos bp) (x_pos bp) BLANK :: screen w) w).
Proof.
  intros Hy Hx Hne Hc.
  unfold bounce_or_lose. run_monad.
  destruct (y_pos bp =? top (court w) + 1) eqn:Et; run_monad;
    [|destruct (y_pos bp =? bot (court w) - 1) eqn:Eb; run_monad;
      [|apply Z.eqb_neq in Et, Eb; lia]];
    cbn [x_pos y_pos set_y_dir];
    (destruct (x_pos bp =? left (court w) + 1) eqn:El;
     [apply Z.eqb_eq in El; lia|]);
    run_monad; rewrite Hx, Z.eqb_refl, Hc; reflexivity.
Qed.

Lemma terminal_is_wide (l c : Z) (w : world) :
  MIN_COLS <= c -> terminal l c w ->
  left (court w) + 1 <> right (court w) - 1.
Proof.
  intros Hc (_ & _ & Hcourt). rewrite Hcourt; cbn [left right].
  unfold BORDER, MIN_COLS in *. lia.
Qed.

(** C1.  On the court of a terminal of the enforced size, a ball on a
    vertical trigger row ([top + 1] or [bot - 1]) and on the right trigger
    column ([right - 1]) at a row the paddle does not cover makes
    [bounce_or_lose] return [LOSE]: the [BOUNCE] of the wall is overwritten,
    although the vertical direction has been turned. *)
Theorem lose_overrides_wall_bounce :
  forall (l c : Z) (w : world) (bp : ppball) (pp : pppaddle),
    MIN_LINES <= l -> MIN_COLS <= c -> terminal l c w ->
    y_pos bp = top (court w) + 1 \/ y_pos bp = bot (court w) - 1 ->
    x_pos bp = right (court w) - 1 ->
    paddle_contact (y_pos bp) pp = NO_CONTACT ->
    exists bp' w',
      bounce_or_lose bp pp w = (Val (LOSE, bp'), w') /\
      bp' = set_y_dir (if y_pos bp =? top (court w) + 1 then 1 else -1) bp /\
      screen w' = Mvaddch (y_pos bp) (x_pos bp) BLANK :: screen w.
Proof.
  intros l c w bp pp _ Hc Hterm Hy Hx Hno.
  do 2 eexists. split; [|split].
  - apply lose_at_right_edge; try assumption.
    exact (terminal_is_wide l c w Hc Hterm).
  - reflexivity.
  - reflexivity.
Qed.

(** C5, what the code does.  On the court of a terminal of the enforced
    size, [serve] returns, and the delays and the position it draws stop one
    short of the upper ends: the vertical delay is in [1, MAX_DELAY - 1], the
    horizontal delay in [1, MAX_DELAY / 2 - 1], the row in
    [top + 1, bot - 2] and the column in [left + 1, right - 2], whatever
    [rand()] returns. *)
Theorem serve_stops_short_of_upper_ends :
  forall (l c : Z) (w : world) (bp : ppball),
    MIN_LINES <= l -> MIN_COLS <= c -> terminal l c w ->
    exists bp' w',
      serve bp w = (Val bp', w') /\
      1 <= y_delay bp' <= MAX_DELAY - 1 /\
      1 <= x_delay bp' <= MAX_DELAY ÷ 2 - 1 /\
      top (court w) + 1 <= y_pos bp' <= bot (court w) - 2 /\
      left (court w) + 1 <= x_pos bp' <= right (court w) - 2.
Proof.
  intros l c w bp Hl Hc (HL & HC & Hcourt).
  destruct (serve_returns bp w) as (bp' & Hinit & Hserve).
  destruct (ball_init_returns bp w)
    as (bp2 & Hinit2 & _ & Hy & Hx & _ & _ & Hyd & Hxd & _).
  rewrite Hinit in Hinit2. injection Hinit2 as <-.
  exists bp'. eexists. split; [exact Hserve|].
  rewrite Hy, Hx, Hyd, Hxd, Hcourt; cbn [top bot left right].
  unfold MAX_DELAY, BORDER, MIN_LINES, MIN_COLS in *.
  change (10 ÷ 2) with 5.
  pose proof (drawn_in_range w 4 (10 - 1) 1).
  pose proof (drawn_in_range w 5 (5 - 1) 1).
  pose proof (drawn_in_range w 0 (l - 3 - 1 - 1 - (3 + 1)) (3 + 1)).
  pose proof (drawn_in_range w 1 (c - 3 - 1 - 1 - (3 + 1)) (3 + 1)).
  lia.
Qed.

(** C7.  [serve] takes one ball off the count at every call; [ball_move] and
    [bounce_or_lose] leave the count alone; and four calls of [serve] on the
    ball of [new_ball], which starts with [NUM_BALLS] = 3, make
    [get_balls_left] return -1. *)
Theorem serve_consumes_one_ball :
  (forall (bp : ppball) (w : world),
      exists bp' w',
        serve bp w = (Val bp', w') /\
        get_balls_left bp' = get_balls_left bp - 1) /\
  (forall (bp : ppball) (w : world),
      exists bp' w',
        ball_move bp w = (Val bp', w') /\
        get_balls_left bp' = get_balls_left bp) /\
  (forall (bp : ppball) (pp : pppaddle) (w : world),
      exists rv bp' w',
        bounce_or_lose bp pp w = (Val (rv, bp'), w') /\
        get_balls_left bp' = get_balls_left bp) /\
  (forall (junk : ppball) (w : world),
      exists bp0 w0 bp' w',
        new_ball junk w = (Val bp0, w0) /\
        get_balls_left bp0 = NUM_BALLS /\ NUM_BALLS = 3 /\
        serves (Z.to_nat (NUM_BALLS + 1)) bp0 w0 = (Val bp', w') /\
        get_balls_left bp' = -1).
Proof.
  split; [exact serve_decrements|].
  split; [exact ball_move_keeps_remain|]. split.
  - intros bp pp w.
    destruct (bounce_or_lose_total bp pp w) as (rv & bp' & w' & Hrun & Hrem).
    exists rv, bp', w'. now split.
  - intros junk w.
    destruct (serves_decrement (Z.to_nat (NUM_BALLS + 1))
                (set_remain NUM_BALLS junk) w) as (bp' & w' & Hrun & Hrem).
    exists (set_remain NUM_BALLS junk), w, bp', w'.
    repeat split; try reflexivity; try exact Hrun.
    rewrite Hrem. reflexivity.
Qed.

(** C10.  [bounce_or_lose] returns one of [NO_CONTACT], [BOUNCE] and [LOSE]
    and never touches the position: [x_pos] and [y_pos] are as before, and so
    are the count of balls, the counters and the symbol; the delays change
    only when the ball is on the right trigger column at a row of the paddle,
    where the value is [BOUNCE]. *)
Theorem bounce_or_lose_keeps_position :
  forall (bp : ppball) (pp : pppaddle) (w : world),
    exists rv bp' w',
      bounce_or_lose bp pp w = (Val (rv, bp'), w') /\
      x_pos bp' = x_pos bp /\ y_pos bp' = y_pos bp /\
      remain bp' = remain bp /\
      x_count bp' = x_count bp /\ y_count bp' = y_count bp /\
      symbol bp' = symbol bp /\
      (rv = NO_CONTACT \/ rv = BOUNCE \/ rv = LOSE) /\
      ((x_delay bp' = x_delay bp /\ y_delay bp' = y_delay bp) \/
       (rv = BOUNCE /\ x_pos bp = right (court w) - 1 /\
        paddle_contact (y_pos bp) pp = CONTACT)).
Proof.
  intros bp pp w.
  unfold bounce_or_lose, rand_number. run_monad.
  destruct (y_pos bp =? top (court w) + 1) eqn:Et; run_monad;
    [|destruct (y_pos bp =? bot (court w) - 1) eqn:Eb; run_monad];
    cbn [x_pos y_pos set_y_dir];
    (destruct (x_pos bp =? left (court w) + 1) eqn:El; run_monad;
     [|destruct (x_pos bp =? right (court w) - 1) eqn:Er; run_monad;
       [destruct (paddle_contact (y_pos bp) pp =? CONTACT) eqn:Ec; run_monad|]]);
    (do 3 eexists; split; [reflexivity|]); cbn;
    try apply Z.eqb_eq in Er; try apply Z.eqb_eq in Ec; tauto.
Qed.

End Ball.

(** ** pong.c *)

Module Pong.

Lemma addch_run_returns (n : nat) :
  forall (ch : ascii) (w : world),
    exists s, addch_run n ch w = (Val tt, set_screen s w).
Proof.
  induction n as [|n IH]; intros ch w.
  - exists (screen w). destruct w; reflexivity.
  - cbn [addch_run]. run_monad.
    destruct (IH ch (set_screen (Addch ch :: screen w) w)) as (s & Hs).
    rewrite Hs. exists s. reflexivity.
Qed.

Lemma print_row_returns (row start end_ : Z) (w : world) :
  exists s, print_row row start end_ w = (Val tt, set_screen s w).
Proof.
  unfold print_row. run_monad.
  match goal with
  | |- context [addch_run ?n ?ch ?w1] =>
      destruct (addch_run_returns n ch w1) as (s & Hs); rewrite Hs
  end.
  exists s. reflexivity.
Qed.

Lemma print_court_returns (balls : Z) (w : world) :
  exists s, print_court balls w = (Val tt, set_screen s w).
Proof.
  unfold print_court, print_col. run_monad.
  destruct (print_row_returns (top (court w)) (left (court w))
              (right (court w)) w) as (s1 & H1).
  rewrite H1.
  match goal with
  | |- context [mvaddch_rows ?n ?i ?col ?ch ?w1] =>
      destruct (Paddle.mvaddch_rows_returns n i col ch w1) as (s2 & H2);
      rewrite H2
  end.
  run_monad.
  match goal with
  | |- context [print_row ?r ?a ?b ?w1] =>
      destruct (print_row_returns r a b w1) as (s3 & H3); rewrite H3
  end.
  unfold print_balls, print_time. run_monad.
  eexists. reflexivity.
Qed.

(** On a terminal of the enforced size [set_up] returns: the court is laid
    out on the terminal, the paddle is the one [new_paddle] makes on that
    court and the ball holds [NUM_BALLS] balls. *)
Lemma set_up_returns (junk : ppball) (w : world) :
  MIN_LINES <= LINES w -> MIN_COLS <= COLS w ->
  exists g w' w0 w1,
    set_up junk w = (Val g, w') /\
    terminal (LINES w) (COLS w) w' /\
    terminal (LINES w) (COLS w) w0 /\
    new_paddle w0 = (Val (paddle g), w1) /\
    get_balls_left (ball g) = NUM_BALLS.
Proof.
  intros Hl Hc. unfold set_up, is_min_size, court_init, new_ball, clock_init.
  run_monad.
  replace (LINES w <? MIN_LINES) with false by (symmetry; apply Z.ltb_ge; lia).
  replace (COLS w <? MIN_COLS) with false by (symmetry; apply Z.ltb_ge; lia).
  cbn [orb]. run_monad.
  match goal with
  | |- context [new_paddle ?w0] =>
      destruct (Paddle.new_paddle_returns w0) as (s & Hs); rewrite Hs;
      set (world0 := w0) in *
  end.
  run_monad.
  match goal with
  | |- context [print_court ?n ?w2] =>
      destruct (print_court_returns n w2) as (s2 & Hs2); rewrite Hs2
  end.
  run_monad.
  do 2 eexists. exists world0. eexists.
  split; [reflexivity|]. split; [|split; [|split]].
  - repeat split.
  - repeat split.
  - exact Hs.
  - reflexivity.
Qed.

(** On a smaller terminal [set_up] ends the process with code 1. *)
Lemma set_up_refuses_small_terminal (junk : ppball) (w : world) :
  LINES w < MIN_LINES \/ COLS w < MIN_COLS ->
  exists w', set_up junk w = (Exited 1, w').
Proof.
  intros H. unfold set_up, is_min_size, wrap_up. run_monad.
  replace ((LINES w <? MIN_LINES) || (COLS w <? MIN_COLS))%bool with true.
  - run_monad. eexists. reflexivity.
  - symmetry. apply orb_true_iff.
    destruct H; [left|right]; now apply Z.ltb_lt.
Qed.

(** The court of the enforced size has an interior of at least 3 rows. *)
Lemma terminal_court_height (l c : Z) (w : world) :
  MIN_LINES <= l -> terminal l c w -> 3 <= court_height (court w).
Proof.
  intros Hl (_ & _ & Hcourt). rewrite Hcourt. unfold court_height; cbn.
  unfold MIN_LINES, BORDER in *. lia.
Qed.

(** What [exit_message] followed by [wrap_up] puts on the terminal. *)
Lemma farewell_returns (w : world) :
  (exit_message ;; wrap_up) w =
  (Val tt,
   set_screen
     (Endwin :: SetTicker 0 :: Sleep 2 :: Refresh
      :: Move (LINES w - 1) (COLS w - 1) :: Standend
      :: MvprintwLasted (LINES w ÷ 2) (COLS w ÷ 2 - EXIT_MSG_LEN ÷ 2)
           (mins (clock w)) (secs (clock w))
      :: Standout :: screen w) w).
Proof. reflexivity. Qed.

(** C6.  When [bounce_or_lose] reports [LOSE], [is_next_round] calls [serve]
    exactly when a ball is left ([get_balls_left] > 0) and goes on with the
    ball [serve] returns; when none is left (so at 0), it shows the final
    message, closes the terminal and exits with code 0, and [serve] is not
    called: nothing is drawn from [rand()] and nothing else reaches the
    screen. *)
Theorem lose_serves_only_with_balls_left :
  forall (g : pong) (w : world) (bp : ppball) (w1 : world),
    bounce_or_lose (ball g) (paddle g) w = (Val (LOSE, bp), w1) ->
    if get_balls_left bp >? 0 then
      exists bp' w2,
        serve bp w1 = (Val bp', w2) /\
        is_next_round g w = (Val {| paddle := paddle g; ball := bp' |}, w2)
    else
      exists w2,
        is_next_round g w = (Exited 0, w2) /\
        rand_next w2 = rand_next w1 /\
        screen w2 =
          Endwin :: SetTicker 0 :: Sleep 2 :: Refresh
          :: Move (LINES w1 - 1) (COLS w1 - 1) :: Standend
          :: MvprintwLasted (LINES w1 ÷ 2) (COLS w1 ÷ 2 - EXIT_MSG_LEN ÷ 2)
               (mins (clock w1)) (secs (clock w1))
          :: Standout :: screen w1.
Proof.
  intros g w bp w1 Hlose.
  assert (Hround : is_next_round g w =
                   (if get_balls_left bp >? 0
                    then b <- serve bp ;; ret {| paddle := paddle g; ball := b |}
                    else exit_message ;; wrap_up ;; exit 0) w1).
  { unfold is_next_round. unfold bind at 1. rewrite Hlose. reflexivity. }
  destruct (get_balls_left bp >? 0) eqn:Eleft.
  - destruct (Ball.serve_returns bp w1) as (bp' & _ & Hserve).
    do 2 eexists. split; [exact Hserve|].
    rewrite Hround. unfold bind. rewrite Hserve. reflexivity.
  - eexists. split; [|split].
    + rewrite Hround. reflexivity.
    + reflexivity.
    + reflexivity.
Qed.

(** C8, what the code does.  On a terminal of 11 lines and 40 columns, a
    serve that puts the ball on the row under the top border, heading up
    with a vertical delay of 1, leaves it inside the court; the next alarm
    moves it onto the border row before [bounce_or_lose] looks at it, the
    test [y_pos == top + 1] no longer holds, and the ball goes on through the
    border. *)
Theorem edge_serve_lets_ball_through :
  let tape := tape_of [0; 10; 0; 0; 0; 0]%N in
  exists g0 w0 g1 w1 g3 w3,
    main zero_ball [] (boot 11 40 tape) = (Val g0, w0) /\
    inside (court w0) (ball g0) /\
    y_pos (ball g0) = top (court w0) + 1 /\ y_dir (ball g0) = -1 /\
    main zero_ball [Alarm] (boot 11 40 tape) = (Val g1, w1) /\
    y_pos (ball g1) = top (court w1) /\
    ~ inside (court w1) (ball g1) /\
    main zero_ball [Alarm; Alarm; Alarm] (boot 11 40 tape) = (Val g3, w3) /\
    y_pos (ball g3) = top (court w3) - 2.
Proof.
  cbv zeta. do 6 eexists.
  split; [vm_compute; reflexivity|].
  split; [unfold inside; cbn; lia|].
  split; [reflexivity|]. split; [reflexivity|].
  split; [vm_compute; reflexivity|].
  split; [reflexivity|].
  split; [unfold inside; cbn; lia|].
  split; [vm_compute; reflexivity|].
  reflexivity.
Qed.

End Pong.

(** ** The statements at concrete inputs *)

Module Instances.

Lemma ready_terminal (l c : Z) (tape : nat -> N) :
  terminal l c (ready l c tape).
Proof. repeat split. Qed.

(** The paddle of the small terminal is the one [new_paddle] makes there. *)
Lemma small_paddle_is_new (tape : nat -> N) :
  value (new_paddle (ready 11 40 tape)) = Some small_paddle.
Proof. reflexivity. Qed.

(** C1 on the small terminal: the ball in the upper right corner, the
    paddle one row below. *)
Lemma lose_overrides_wall_bounce_witness :
  paddle_contact (y_pos (corner_ball 2)) small_paddle = NO_CONTACT /\
  exists bp' w',
    bounce_or_lose (corner_ball 2) small_paddle (ready 11 40 (tape_of [])) =
    (Val (LOSE, bp'), w') /\
    bp' = set_y_dir 1 (corner_ball 2) /\
    screen w' = [Mvaddch 4 35 BLANK].
Proof.
  split; [reflexivity|].
  apply (Ball.lose_overrides_wall_bounce 11 40
           (ready 11 40 (tape_of [])) (corner_ball 2) small_paddle).
  - unfold MIN_LINES; lia.
  - unfold MIN_COLS; lia.
  - repeat split.
  - left; reflexivity.
  - reflexivity.
  - reflexivity.
Defined.

(** C3 on the small terminal: the paddle is driven against both bounds. *)
Lemma paddle_stays_in_bounds_witness :
  (exists pp w1 pp' w2,
      new_paddle (ready 11 40 (tape_of [])) = (Val pp, w1) /\
      paddle_moves [Up; Up; Up; Down; Down; Down; Down] pp w1 = (Val pp', w2) /\
      pad_mintop pp' <= pad_top pp' /\ pad_bot pp' <= pad_maxbot pp') /\
  paddle_up (shift_paddle (-1) small_paddle) (ready 11 40 (tape_of [])) =
    (Val (shift_paddle (-1) small_paddle), ready 11 40 (tape_of [])) /\
  paddle_down (shift_paddle 1 small_paddle) (ready 11 40 (tape_of [])) =
    (Val (shift_paddle 1 small_paddle), ready 11 40 (tape_of [])).
Proof.
  split; [|split].
  - apply (proj1 Paddle.paddle_stays_in_bounds 11 40).
    + unfold MIN_LINES; lia.
    + unfold MIN_COLS; lia.
    + repeat split.
  - apply (proj1 (proj2 Paddle.paddle_stays_in_bounds)). cbn. lia.
  - apply (proj2 (proj2 Paddle.paddle_stays_in_bounds)). cbn. lia.
Defined.

(** C4 at 11 lines and 40 columns: [set_up] returns a paddle whose bounds
    are rows 3 and 7, the border rows of the court, where the court's rows
    moved by the margin would be rows 6 and 3. *)
Lemma paddle_bounds_not_offset_by_border :
  exists g w',
    set_up zero_ball (boot 11 40 (tape_of [])) = (Val g, w') /\
    MIN_LINES <= LINES w' /\ MIN_COLS <= COLS w' /\
    pad_mintop (paddle g) = 3 /\ top (court w') + BORDER = 6 /\
    pad_maxbot (paddle g) = 7 /\ bot (court w') - BORDER - 1 = 3 /\
    pad_mintop (paddle g) <> top (court w') + BORDER /\
    pad_maxbot (paddle g) <> bot (court w') - BORDER - 1.
Proof.
  do 2 eexists. split; [vm_compute; reflexivity|].
  cbn. unfold MIN_LINES, MIN_COLS, BORDER. repeat split; lia.
Qed.

Lemma paddle_bounds_are_court_borders_witness :
  exists pp w',
    new_paddle (ready 11 40 (tape_of [])) = (Val pp, w') /\
    pad_mintop pp = BORDER /\
    pad_mintop pp = top (court (ready 11 40 (tape_of []))) /\
    pad_maxbot pp = 11 - BORDER - 1 /\
    pad_maxbot pp = bot (court (ready 11 40 (tape_of []))).
Proof.
  apply (Paddle.paddle_bounds_are_court_borders 11 40).
  - unfold MIN_LINES; lia.
  - unfold MIN_COLS; lia.
  - repeat split.
Defined.

(** C5: what [rand_number] makes of the values of [rand()].  Between 1 and
    [MAX_DELAY] the result grows up to 9 and falls back to 1: 10 is not
    reached. *)
Lemma rand_number_wraps_before_max :
  value (rand_number 1 MAX_DELAY (boot 11 40 (tape_of [8]%N))) = Some 9 /\
  value (rand_number 1 MAX_DELAY (boot 11 40 (tape_of [9]%N))) = Some 1 /\
  value (rand_number 1 MAX_DELAY (boot 11 40 (tape_of [10]%N))) = Some 2.
Proof. repeat split. Qed.

Lemma serve_stops_short_of_upper_ends_witness :
  exists bp' w',
    serve zero_ball (ready 11 40 (tape_of [1; 30; 0; 0; 8; 3]%N)) = (Val bp', w') /\
    1 <= y_delay bp' <= MAX_DELAY - 1 /\
    1 <= x_delay bp' <= MAX_DELAY ÷ 2 - 1 /\
    top (court (ready 11 40 (tape_of [1; 30; 0; 0; 8; 3]%N))) + 1 <= y_pos bp'
      <= bot (court (ready 11 40 (tape_of [1; 30; 0; 0; 8; 3]%N))) - 2 /\
    left (court (ready 11 40 (tape_of [1; 30; 0; 0; 8; 3]%N))) + 1 <= x_pos bp'
      <= right (court (ready 11 40 (tape_of [1; 30; 0; 0; 8; 3]%N))) - 2.
Proof.
  apply (Ball.serve_stops_short_of_upper_ends 11 40).
  - unfold MIN_LINES; lia.
  - unfold MIN_COLS; lia.
  - repeat split.
Defined.

(** The largest values a serve can draw on the small terminal: delays 9 and
    4, row 5 of the rows 4 to 6, column 34 of the columns 4 to 35. *)
Lemma serve_largest_draw :
  exists bp' w',
    serve zero_ball (ready 11 40 (tape_of [1; 30; 0; 0; 8; 3]%N)) = (Val bp', w') /\
    y_delay bp' = 9 /\ x_delay bp' = 4 /\ y_pos bp' = 5 /\ x_pos bp' = 34.
Proof. do 2 eexists. split; [vm_compute; reflexivity|]. repeat split. Qed.

(** C6 with no ball left: the last ball is lost in the corner. *)
Lemma lose_serves_only_with_balls_left_witness :
  get_balls_left (corner_ball 0) = 0 /\
  exists w2,
    is_next_round {| paddle := small_paddle; ball := corner_ball 0 |}
      (ready 11 40 (tape_of [])) = (Exited 0, w2) /\
    rand_next w2 = O /\
    screen w2 =
      [Endwin; SetTicker 0; Sleep 2; Refresh; Move 10 39; Standend;
       MvprintwLasted 5 12 0 0; Standout; Mvaddch 4 35 BLANK].
Proof.
  split; [reflexivity|].
  exact (Pong.lose_serves_only_with_balls_left
           {| paddle := small_paddle; ball := corner_ball 0 |}
           (ready 11 40 (tape_of []))
           (set_y_dir 1 (corner_ball 0))
           (set_screen [Mvaddch 4 35 BLANK] (ready 11 40 (tape_of [])))
           eq_refl).
Defined.

(** C6 with a ball left: the same loss is followed by a serve. *)
Lemma lose_with_ball_left_serves :
  exists g w2,
    is_next_round {| paddle := small_paddle; ball := corner_ball 1 |}
      (ready 11 40 (tape_of [])) = (Val g, w2) /\
    get_balls_left (ball g) = 0 /\ rand_next w2 = 6%nat.
Proof. do 2 eexists. split; [vm_compute; reflexivity|]. split; reflexivity. Qed.

(** C9 at 17 lines: the interior has 9 rows and the paddle 3. *)
Lemma new_paddle_height_witness :
  court_height (court (ready 17 40 (tape_of []))) = 9 /\
  exists pp w',
    new_paddle (ready 17 40 (tape_of [])) = (Val pp, w') /\
    paddle_height pp = 3 /\ 1 <= paddle_height pp.
Proof.
  split; [reflexivity|].
  destruct (Paddle.new_paddle_height (ready 17 40 (tape_of [])))
    as (pp & w' & Hnew & _ & Hmin & Hnine).
  exists pp, w'. split; [exact Hnew|]. split.
  - apply Hnine. reflexivity.
  - apply Hmin. cbn. lia.
Defined.

End Instances.

(** ** More on clock.c: the clock and the time on the screen *)

Module ClockFacts.

(** One tick: either it completes a second and prints the new time, or it
    leaves the screen, the minutes and the seconds alone. *)
Lemma clock_tick_effect (w : world) :
  exists w',
    clock_tick w = (Val tt, w') /\
    ((ticks (clock w) + 1 = TICKS_PER_SEC /\
      time_prints (screen w') = S (time_prints (screen w)) /\
      last_time (screen w') = Some (mins (clock w'), secs (clock w')))
     \/
     (ticks (clock w) + 1 <> TICKS_PER_SEC /\
      screen w' = screen w)).
Proof.
  unfold clock_tick, print_time. run_monad.
  destruct (ticks (clock w) + 1 =? TICKS_PER_SEC) eqn:Et; run_monad.
  - apply Z.eqb_eq in Et.
    destruct (secs (clock w) + 1 =? MINUTE) eqn:Es; run_monad;
      (eexists; split; [reflexivity|]); left; run_monad; cbn; auto.
  - apply Z.eqb_neq in Et.
    eexists; split; [reflexivity|]. right. run_monad. auto.
Qed.

Lemma whole_seconds_step (k : Z) :
  (k mod 50 + 1 = 50 -> (k + 1) / 50 = k / 50 + 1) /\
  (k mod 50 + 1 <> 50 -> (k + 1) / 50 = k / 50).
Proof. split; intros H; Z.to_euclidean_division_equations; lia. Qed.

Lemma ticks_and_prints (n : nat) :
  forall (w : world) (k : Z),
    clock_at k (clock w) ->
    exists w',
      times n clock_tick w = (Val tt, w') /\
      clock_at (k + Z.of_nat n) (clock w') /\
      Z.of_nat (time_prints (screen w')) =
        Z.of_nat (time_prints (screen w))
        + ((k + Z.of_nat n) / TICKS_PER_SEC - k / TICKS_PER_SEC) /\
      (((k + Z.of_nat n) / TICKS_PER_SEC = k / TICKS_PER_SEC /\
        screen w' = screen w)
       \/ last_time (screen w') = Some (mins (clock w'), secs (clock w'))).
Proof.
  induction n as [|n IH]; intros w k Hk.
  - exists w. rewrite Z.add_0_r.
    split; [reflexivity|]. split; [exact Hk|]. split; [lia|].
    left. split; reflexivity.
  - destruct (Clock.clock_tick_returns w) as (w1 & Hrun & Hstep).
    destruct (clock_tick_effect w) as (w1' & Hrun' & Heff).
    rewrite Hrun in Hrun'. injection Hrun' as <-.
    specialize (Hstep k Hk).
    destruct (IH w1 (k + 1) Hstep) as (w2 & Hrun2 & Hat & Hcount & Hlast).
    replace (k + 1 + Z.of_nat n) with (k + Z.of_nat (S n)) in * by lia.
    exists w2. split; [cbn [times]; unfold bind; now rewrite Hrun|].
    split; [exact Hat|].
    destruct Hk as (Ht & _). unfold TICKS_PER_SEC in *.
    destruct (whole_seconds_step k) as (Hyes & Hno).
    destruct Heff as [(Hfull & Hp & Hl) | (Hpart & Hscr)].
    + rewrite Ht in Hfull. specialize (Hyes Hfull). split; [lia|].
      right. destruct Hlast as [(Hsame & Hscr2) | Hlast]; [|exact Hlast].
      rewrite Hscr2, Hl.
      destruct Hstep as (_ & Hs1 & Hm1). destruct Hat as (_ & Hs2 & Hm2).
      rewrite Hs1, Hm1, Hs2, Hm2. unfold TICKS_PER_SEC. rewrite Hsame.
      reflexivity.
    + rewrite Ht in Hpart. specialize (Hno Hpart). rewrite Hscr in *.
      split; [lia|].
      destruct Hlast as [(Hsame & Hscr2) | Hlast]; [left|right; exact Hlast].
      split; [lia|exact Hscr2].
Qed.

(** X1.  From [clock_init] on, the time is printed once for every whole
    second, so [N / 50] times in [N] ticks; nothing reaches the screen before the
    first second is over, and from then on the time printed last is the time
    the clock holds.  The seconds stay below 60 and the ticks below 50. *)
Theorem screen_time_follows_clock :
  forall (N : nat) (w : world),
    exists w',
      (clock_init ;; times N clock_tick) w = (Val tt, w') /\
      Z.of_nat (time_prints (screen w')) =
        Z.of_nat (time_prints (screen w)) + Z.of_nat N / TICKS_PER_SEC /\
      ((Z.of_nat N < TICKS_PER_SEC /\ screen w' = screen w)
       \/ last_time (screen w') = Some (mins (clock w'), secs (clock w'))) /\
      0 <= ticks (clock w') < TICKS_PER_SEC /\
      0 <= secs (clock w') < MINUTE /\
      0 <= mins (clock w').
Proof.
  intros N w.
  destruct (Clock.clock_init_at w) as (w0 & H0 & Hat0).
  assert (Hscr0 : screen w0 = screen w).
  { unfold clock_init, modify in H0. injection H0 as <-. reflexivity. }
  destruct (ticks_and_prints N w0 0 Hat0) as (w' & Hrun & Hat & Hcount & Hlast).
  exists w'. split; [unfold bind; now rewrite H0|].
  rewrite Hscr0 in *. cbn [Z.add] in *.
  change (0 / TICKS_PER_SEC) with 0 in *.
  split; [lia|]. split.
  - destruct Hlast as [(Hdiv & Hscr) | Hlast]; [left|right; exact Hlast].
    split; [|exact Hscr]. unfold TICKS_PER_SEC in *.
    Z.to_euclidean_division_equations; lia.
  - destruct Hat as (Ht & Hs & Hm). rewrite Ht, Hs, Hm.
    unfold TICKS_PER_SEC, MINUTE.
    repeat split; Z.to_euclidean_division_equations; lia.
Qed.

End ClockFacts.

(** ** More on paddle.c *)

Module PaddleFacts.

(** A move either leaves the paddle where it is or shifts it by one row,
    and then only with room to spare; the world keeps its setting. *)
Lemma paddle_step_effect (mv : paddle_move) (pp : pppaddle) (w : world) :
  exists pp' w',
    paddle_step mv pp w = (Val pp', w') /\
    same_setting w w' /\ rand_next w' = rand_next w /\
    ((pp' = pp /\ w' = w) \/
     (pp' = shift_paddle (-1) pp /\ pad_mintop pp < pad_top pp - 1 /\
      screen w' = Refresh :: Move (LINES w - 1) (COLS w - 1)
                  :: Mvaddch (pad_top pp - 1) (pad_col pp) PADDLE_SYMBOL
                  :: Mvaddch (pad_bot pp) (pad_col pp) BLANK :: screen w) \/
     (pp' = shift_paddle 1 pp /\ pad_bot pp + 1 < pad_maxbot pp /\
      screen w' = Refresh :: Move (LINES w - 1) (COLS w - 1)
                  :: Mvaddch (pad_bot pp + 1) (pad_col pp) PADDLE_SYMBOL
                  :: Mvaddch (pad_top pp) (pad_col pp) BLANK :: screen w)).
Proof.
  destruct mv; cbn [paddle_step].
  - unfold paddle_up.
    destruct (pad_top pp - 1 >? pad_mintop pp) eqn:E; run_monad.
    + apply Z.gtb_lt in E. do 2 eexists. split; [reflexivity|].
      split; [repeat split|]. split; [reflexivity|].
      right; left. cbn. auto.
    + exists pp, w. split; [reflexivity|].
      split; [repeat split|]. auto.
  - unfold paddle_down.
    destruct (pad_bot pp + 1 <? pad_maxbot pp) eqn:E; run_monad.
    + apply Z.ltb_lt in E. do 2 eexists. split; [reflexivity|].
      split; [repeat split|]. split; [reflexivity|].
      right; right. cbn. auto.
    + exists pp, w. split; [reflexivity|].
      split; [repeat split|]. auto.
Qed.

Lemma paddle_moves_keep_shape (mvs : list paddle_move) :
  forall (pp : pppaddle) (w : world),
    off_borders pp ->
    exists pp' w',
      paddle_moves mvs pp w = (Val pp', w') /\
      off_borders pp' /\
      paddle_height pp' = paddle_height pp /\
      pad_col pp' = pad_col pp /\ pad_char pp' = pad_char pp /\
      pad_mintop pp' = pad_mintop pp /\ pad_maxbot pp' = pad_maxbot pp /\
      same_setting w w' /\ rand_next w' = rand_next w.
Proof.
  induction mvs as [|mv rest IH]; intros pp w Hoff.
  - exists pp, w. split; [reflexivity|]. split; [exact Hoff|].
    repeat split.
  - destruct (paddle_step_effect mv pp w)
      as (pp1 & w1 & H1 & Hset1 & Hr1 & Hcase).
    assert (Hoff1 : off_borders pp1 /\
                    paddle_height pp1 = paddle_height pp /\
                    pad_col pp1 = pad_col pp /\ pad_char pp1 = pad_char pp /\
                    pad_mintop pp1 = pad_mintop pp /\
                    pad_maxbot pp1 = pad_maxbot pp).
    { destruct Hoff as [Ht Hb].
      destruct Hcase as [(-> & _) | [(-> & Hroom & _) | (-> & Hroom & _)]];
        unfold off_borders, paddle_height, shift_paddle; cbn;
        repeat split; lia. }
    destruct Hoff1 as (Hoff1 & Hh1 & Hc1 & Hch1 & Hm1 & Hx1).
    destruct (IH pp1 w1 Hoff1)
      as (pp2 & w2 & H2 & Hoff2 & Hh2 & Hc2 & Hch2 & Hm2 & Hx2 & Hset2 & Hr2).
    exists pp2, w2. split; [cbn [paddle_moves]; unfold bind; now rewrite H1|].
    destruct Hset1 as (A1 & A2 & A3 & A4 & A5).
    destruct Hset2 as (B1 & B2 & B3 & B4 & B5).
    split; [exact Hoff2|]. repeat split; congruence.
Qed.

(** X2.  On a terminal of the enforced size, the paddle [new_paddle] makes
    and every paddle reached from it by [paddle_up] and [paddle_down] calls
    lie strictly between the court's top and bottom border rows, keep the
    height [(LINES - 8) / 3], which is at least 1, and stay in the column
    of the right edge; the moves draw nothing from [rand()] and leave the
    court alone. *)
Theorem paddle_keeps_height_off_borders :
  forall (l c : Z) (w : world) (mvs : list paddle_move),
    MIN_LINES <= l -> MIN_COLS <= c -> terminal l c w ->
    exists pp w1 pp' w2,
      new_paddle w = (Val pp, w1) /\
      paddle_moves mvs pp w1 = (Val pp', w2) /\
      top (court w) < pad_top pp' /\ pad_bot pp' < bot (court w) /\
      paddle_height pp' = paddle_height pp /\
      paddle_height pp' = (l - 8) ÷ 3 /\ 1 <= paddle_height pp' /\
      pad_col pp' = right (court w) /\
      court w2 = court w /\ rand_next w2 = rand_next w.
Proof.
  intros l c w mvs Hl Hc (HL & HC & Hcourt).
  destruct (Paddle.new_paddle_returns w) as (s & Hnew).
  set (pp := {| pad_char := PADDLE_SYMBOL;
                pad_top := LINES w ÷ 2 - (court_height (court w) ÷ 3) ÷ 2;
                pad_bot := LINES w ÷ 2 - (court_height (court w) ÷ 3) ÷ 2
                           + court_height (court w) ÷ 3 - 1;
                pad_col := right (court w);
                pad_mintop := BORDER;
                pad_maxbot := LINES w - BORDER - 1 |}) in *.
  assert (Hh : court_height (court w) = l - 8).
  { rewrite Hcourt. unfold court_height, BORDER; cbn. lia. }
  assert (Hoff : off_borders pp).
  { unfold off_borders, pp; cbn [pad_mintop pad_top pad_bot pad_maxbot].
    rewrite Hh, HL. unfold BORDER, MIN_LINES in *.
    split; Z.to_euclidean_division_equations; lia. }
  destruct (paddle_moves_keep_shape mvs pp (set_screen s w) Hoff)
    as (pp' & w2 & Hmv & [Ht Hb] & Hhei & Hcol & _ & Hmin & Hmax & Hset & Hr).
  exists pp, (set_screen s w), pp', w2.
  split; [exact Hnew|]. split; [exact Hmv|].
  destruct Hset as (_ & _ & Hcrt & _).
  assert (Hpp : paddle_height pp = (l - 8) ÷ 3).
  { unfold paddle_height, pp; cbn [pad_top pad_bot]. rewrite Hh. lia. }
  rewrite Hmin in Ht. rewrite Hmax in Hb.
  unfold pp in Ht, Hb, Hcol; cbn [pad_mintop pad_maxbot pad_col] in Ht, Hb, Hcol.
  rewrite HL in Hb. rewrite Hcrt, Hcourt; cbn [top bot right].
  rewrite Hcourt in Hcol; cbn [right] in Hcol.
  unfold BORDER, MIN_LINES in *.
  repeat split; try assumption; try congruence.
  rewrite Hhei, Hpp. Z.to_euclidean_division_equations; lia.
Qed.

(** X3.  A [paddle_up] with room above ([pad_mintop < pad_top - 1]) shifts
    the paddle up by one row, and a [paddle_down] right after it gives the
    paddle back as it was, provided the paddle was clear of its lower bound;
    the same holds for [paddle_down] followed by [paddle_up]. *)
Theorem paddle_moves_back :
  (forall (pp : pppaddle) (w : world),
      pad_mintop pp < pad_top pp - 1 -> pad_bot pp < pad_maxbot pp ->
      exists pp1 w1 w2,
        paddle_up pp w = (Val pp1, w1) /\
        pad_top pp1 = pad_top pp - 1 /\ pad_bot pp1 = pad_bot pp - 1 /\
        paddle_down pp1 w1 = (Val pp, w2)) /\
  (forall (pp : pppaddle) (w : world),
      pad_bot pp + 1 < pad_maxbot pp -> pad_mintop pp < pad_top pp ->
      exists pp1 w1 w2,
        paddle_down pp w = (Val pp1, w1) /\
        pad_top pp1 = pad_top pp + 1 /\ pad_bot pp1 = pad_bot pp + 1 /\
        paddle_up pp1 w1 = (Val pp, w2)).
Proof.
  assert (Hdown : forall pp, shift_paddle 1 (shift_paddle (-1) pp) = pp).
  { intros [ch t b col mn mx]. unfold shift_paddle; cbn. f_equal; lia. }
  assert (Hup : forall pp, shift_paddle (-1) (shift_paddle 1 pp) = pp).
  { intros [ch t b col mn mx]. unfold shift_paddle; cbn. f_equal; lia. }
  split; intros pp w H1 H2.
  - unfold paddle_up.
    replace (pad_top pp - 1 >? pad_mintop pp) with true
      by (symmetry; apply Z.gtb_lt; lia).
    run_monad. do 3 eexists. split; [reflexivity|].
    split; [reflexivity|]. split; [reflexivity|].
    unfold paddle_down. cbn [shift_paddle pad_top pad_bot pad_maxbot pad_col].
    replace (pad_bot pp + -1 + 1 <? pad_maxbot pp) with true
      by (symmetry; apply Z.ltb_lt; lia).
    run_monad. rewrite Hdown. reflexivity.
  - unfold paddle_down.
    replace (pad_bot pp + 1 <? pad_maxbot pp) with true
      by (symmetry; apply Z.ltb_lt; lia).
    run_monad. do 3 eexists. split; [reflexivity|].
    split; [reflexivity|]. split; [reflexivity|].
    unfold paddle_up. cbn [shift_paddle pad_top pad_bot pad_mintop pad_col].
    replace (pad_top pp + 1 - 1 >? pad_mintop pp) with true
      by (symmetry; apply Z.gtb_lt; lia).
    run_monad. rewrite Hup. reflexivity.
Qed.

(** The cells a run of [mvaddch_rows] leaves on the screen. *)
Lemma mvaddch_rows_shown (n : nat) :
  forall (i col : Z) (ch : ascii) (w : world),
    exists s,
      mvaddch_rows n i col ch w = (Val tt, set_screen s w) /\
      forall y x,
        shown s y x =
        if (x =? col) && (i <=? y) && (y <? i + Z.of_nat n)
        then Some ch else shown (screen w) y x.
Proof.
  induction n as [|n IH]; intros i col ch w.
  - exists (screen w). split; [destruct w; reflexivity|].
    intros y x.
    destruct (Z.eqb_spec x col), (Z.leb_spec i y), (Z.ltb_spec y (i + Z.of_nat 0));
      cbn [andb]; try reflexivity; lia.
  - cbn [mvaddch_rows]. run_monad.
    destruct (IH (i + 1) col ch (set_screen (Mvaddch i col ch :: screen w) w))
      as (s & Hs & Hshown).
    rewrite Hs. exists s. split; [reflexivity|].
    intros y x. rewrite Hshown. cbn [screen set_screen shown].
    destruct (Z.eqb_spec x col), (Z.leb_spec (i + 1) y),
      (Z.ltb_spec y (i + 1 + Z.of_nat n)), (Z.eqb_spec i y),
      (Z.eqb_spec col x), (Z.leb_spec i y),
      (Z.ltb_spec y (i + Z.of_nat (S n)));
      cbn [andb]; try reflexivity; lia.
Qed.

(** [new_paddle] draws the paddle it returns, when that paddle has a row. *)
Lemma new_paddle_drawn (w : world) :
  exists pp s,
    new_paddle w = (Val pp, set_screen s w) /\
    (pad_top pp <= pad_bot pp -> paddle_drawn (screen w) s pp).
Proof.
  unfold new_paddle, paddle_init, draw_paddle. run_monad.
  cbn [pad_top pad_bot pad_col pad_char].
  match goal with
  | |- context [mvaddch_rows ?n ?i ?col ?ch w] =>
      destruct (mvaddch_rows_shown n i col ch w) as (s & Hs & Hshown)
  end.
  do 2 eexists. split; [rewrite Hs; run_monad; reflexivity|].
  cbn [pad_top pad_bot pad_col]. intros Hrows y x.
  cbn [shown]. rewrite Hshown.
  destruct (Z.eqb_spec x (right (court w))) as [Hx|Hx]; cbn [andb].
  - match goal with
    | |- context [(?a <=? y) && (y <? ?b)] =>
        destruct (Z.leb_spec a y), (Z.ltb_spec y b); cbn [andb]
    end;
      (split; [|split]); intros; cbn [pad_top pad_bot pad_col] in *;
      try reflexivity; try contradiction; try (right; reflexivity); lia.
  - split; [|split]; intros; cbn [pad_col] in *;
      try reflexivity; contradiction.
Qed.

(** A move keeps the screen in step with the paddle. *)
Lemma paddle_step_drawn (s0 : list event) (mv : paddle_move)
      (pp : pppaddle) (w : world) :
  pad_top pp <= pad_bot pp ->
  paddle_drawn s0 (screen w) pp ->
  exists pp' w',
    paddle_step mv pp w = (Val pp', w') /\
    pad_top pp' <= pad_bot pp' /\
    paddle_drawn s0 (screen w') pp'.
Proof.
  intros Hrows Hdrawn.
  destruct (paddle_step_effect mv pp w)
    as (pp' & w' & Hrun & _ & _ & Hcase).
  exists pp', w'. split; [exact Hrun|].
  destruct Hcase as [(-> & ->) | [(-> & Hroom & ->) | (-> & Hroom & ->)]].
  - split; assumption.
  - split; [cbn; lia|]. intros y x.
    destruct (Hdrawn y x) as (Hin & Hout & Hoff).
    cbn [shown shift_paddle pad_top pad_bot pad_col].
    destruct (Z.eqb_spec (pad_top pp - 1) y), (Z.eqb_spec (pad_col pp) x),
      (Z.eqb_spec (pad_bot pp) y); cbn [andb];
      (split; [|split]); intros; try reflexivity; try congruence;
      try lia; try (left; reflexivity);
      try (apply Hin; [congruence|lia]);
      try (apply Hout; [congruence|lia]);
      try (apply Hoff; congruence).
  - split; [cbn; lia|]. intros y x.
    destruct (Hdrawn y x) as (Hin & Hout & Hoff).
    cbn [shown shift_paddle pad_top pad_bot pad_col].
    destruct (Z.eqb_spec (pad_bot pp + 1) y), (Z.eqb_spec (pad_col pp) x),
      (Z.eqb_spec (pad_top pp) y); cbn [andb];
      (split; [|split]); intros; try reflexivity; try congruence;
      try lia; try (left; reflexivity);
      try (apply Hin; [congruence|lia]);
      try (apply Hout; [congruence|lia]);
      try (apply Hoff; congruence).
Qed.

Lemma paddle_moves_drawn (s0 : list event) (mvs : list paddle_move) :
  forall (pp : pppaddle) (w : world),
    pad_top pp <= pad_bot pp ->
    paddle_drawn s0 (screen w) pp ->
    exists pp' w',
      paddle_moves mvs pp w = (Val pp', w') /\
      paddle_drawn s0 (screen w') pp'.
Proof.
  induction mvs as [|mv rest IH]; intros pp w Hrows Hdrawn.
  - exists pp, w. split; [reflexivity|exact Hdrawn].
  - destruct (paddle_step_drawn s0 mv pp w Hrows Hdrawn)
      as (pp1 & w1 & H1 & Hrows1 & Hdrawn1).
    destruct (IH pp1 w1 Hrows1 Hdrawn1) as (pp2 & w2 & H2 & Hdrawn2).
    exists pp2, w2. split; [|exact Hdrawn2].
    cbn [paddle_moves]. unfold bind. now rewrite H1.
Qed.

(** X4.  On a terminal of the enforced size, after [new_paddle] and any
    sequence of [paddle_up] and [paddle_down] calls, the [mvaddch] calls
    made so far leave the paddle's symbol on exactly the rows
    [pad_top .. pad_bot] of the paddle's column; the other rows of that
    column hold a blank or what they held before, and no other column was
    written. *)
Theorem screen_shows_the_paddle :
  forall (l c : Z) (w : world) (mvs : list paddle_move),
    MIN_LINES <= l -> MIN_COLS <= c -> terminal l c w ->
    exists pp w1 pp' w2,
      new_paddle w = (Val pp, w1) /\
      paddle_moves mvs pp w1 = (Val pp', w2) /\
      forall y x : Z,
        (x = pad_col pp' -> pad_top pp' <= y <= pad_bot pp' ->
         shown (screen w2) y x = Some PADDLE_SYMBOL) /\
        (x = pad_col pp' -> ~ pad_top pp' <= y <= pad_bot pp' ->
         shown (screen w2) y x = Some BLANK \/
         shown (screen w2) y x = shown (screen w) y x) /\
        (x <> pad_col pp' -> shown (screen w2) y x = shown (screen w) y x).
Proof.
  intros l c w mvs Hl Hc Hterm.
  destruct (new_paddle_drawn w) as (pp & s & Hnew & Hdrawn).
  destruct (Paddle.new_paddle_returns w) as (s0 & Hnew0).
  rewrite Hnew in Hnew0. injection Hnew0 as Hpp _.
  assert (Hrows : pad_top pp <= pad_bot pp).
  { pose proof (Pong.terminal_court_height l c w Hl Hterm) as H3.
    rewrite Hpp; cbn [pad_top pad_bot].
    Z.to_euclidean_division_equations; lia. }
  destruct (paddle_moves_drawn (screen w) mvs pp (set_screen s w) Hrows
              (Hdrawn Hrows)) as (pp' & w2 & Hmv & Hdrawn').
  exists pp, (set_screen s w), pp', w2.
  split; [exact Hnew|]. split; [exact Hmv|exact Hdrawn'].
Qed.

End PaddleFacts.

(** ** More on ball.c *)

Module BallFacts.

Lemma paddle_contact_cases (y : Z) (pp : pppaddle) :
  (paddle_contact y pp = CONTACT /\ pad_top pp <= y <= pad_bot pp) \/
  (paddle_contact y pp = NO_CONTACT /\ ~ pad_top pp <= y <= pad_bot pp).
Proof.
  unfold paddle_contact.
  destruct (Z.geb_spec y (pad_top pp)), (Z.leb_spec y (pad_bot pp));
    cbn [andb]; [left|right|right|right]; split; try reflexivity; lia.
Qed.

(** One call of [ball_move], axis by axis: the axis whose counter runs out
    steps and reloads its counter, an axis with a positive delay counts
    down, an axis without one is left alone; the screen changes only when an
    axis stepped. *)
Lemma ball_move_effect (bp : ppball) (w : world) :
  exists bp1 w1,
    ball_move bp w = (Val bp1, w1) /\
    ((0 < y_delay bp /\ y_count bp = 1 /\
      y_pos bp1 = y_pos bp + y_dir bp /\ y_count bp1 = y_delay bp) \/
     (0 < y_delay bp /\ y_count bp <> 1 /\
      y_pos bp1 = y_pos bp /\ y_count bp1 = y_count bp - 1) \/
     (y_delay bp <= 0 /\
      y_pos bp1 = y_pos bp /\ y_count bp1 = y_count bp)) /\
    ((0 < x_delay bp /\ x_count bp = 1 /\
      x_pos bp1 = x_pos bp + x_dir bp /\ x_count bp1 = x_delay bp) \/
     (0 < x_delay bp /\ x_count bp <> 1 /\
      x_pos bp1 = x_pos bp /\ x_count bp1 = x_count bp - 1) \/
     (x_delay bp <= 0 /\
      x_pos bp1 = x_pos bp /\ x_count bp1 = x_count bp)) /\
    (y_dir bp1 = y_dir bp /\ x_dir bp1 = x_dir bp /\
     y_delay bp1 = y_delay bp /\ x_delay bp1 = x_delay bp /\
     remain bp1 = remain bp /\ symbol bp1 = symbol bp) /\
    same_setting w w1 /\ rand_next w1 = rand_next w /\
    ((w1 = w /\ ~ (0 < y_delay bp /\ y_count bp = 1) /\
      ~ (0 < x_delay bp /\ x_count bp = 1)) \/
     (screen w1 = Refresh :: Move (LINES w - 1) (COLS w - 1)
                  :: Mvaddch (y_pos bp1) (x_pos bp1) (symbol bp)
                  :: Mvaddch (y_pos bp) (x_pos bp) BLANK :: screen w /\
      ((0 < y_delay bp /\ y_count bp = 1) \/
       (0 < x_delay bp /\ x_count bp = 1)))).
Proof.
  unfold ball_move, draw_ball. run_monad.
  destruct (y_delay bp >? 0) eqn:Eyd; cbn;
    [destruct (y_count bp - 1 =? 0) eqn:Eyc|]; cbn;
    (destruct (x_delay bp >? 0) eqn:Exd; cbn;
     [destruct (x_count bp - 1 =? 0) eqn:Exc|]); cbn;
    reflect_tests;
    (do 2 eexists; split; [reflexivity|]); cbn;
    (split; [first [left; repeat split; lia
                  | right; left; repeat split; lia
                  | right; right; repeat split; lia]|]);
    (split; [first [left; repeat split; lia
                  | right; left; repeat split; lia
                  | right; right; repeat split; lia]|]);
    (split; [repeat split|]);
    (split; [repeat split|]);
    (split; [reflexivity|]);
    first [left; split; [reflexivity|split; lia]
          | right; split; [reflexivity|lia]].
Qed.

(** Every way through [bounce_or_lose]: what it returns, what it does to
    the directions and the delays, and what it does to the world. *)
Lemma bounce_or_lose_effect (bp : ppball) (pp : pppaddle) (w : world) :
  exists rv bp' w',
    bounce_or_lose bp pp w = (Val (rv, bp'), w') /\
    (x_pos bp' = x_pos bp /\ y_pos bp' = y_pos bp /\
     remain bp' = remain bp /\ symbol bp' = symbol bp /\
     x_count bp' = x_count bp /\ y_count bp' = y_count bp) /\
    same_setting w w' /\
    ((y_pos bp = top (court w) + 1 /\ y_dir bp' = 1) \/
     (y_pos bp <> top (court w) + 1 /\ y_pos bp = bot (court w) - 1 /\
      y_dir bp' = -1) \/
     (y_pos bp <> top (court w) + 1 /\ y_pos bp <> bot (court w) - 1 /\
      y_dir bp' = y_dir bp)) /\
    ((x_pos bp = left (court w) + 1 /\
      rv = BOUNCE /\ x_dir bp' = 1 /\ w' = w /\
      x_delay bp' = x_delay bp /\ y_delay bp' = y_delay bp)
     \/
     (x_pos bp <> left (court w) + 1 /\ x_pos bp = right (court w) - 1 /\
      pad_top pp <= y_pos bp <= pad_bot pp /\
      rv = BOUNCE /\ x_dir bp' = -1 /\
      x_delay bp' = Z.rem (drawn w 0) (MAX_DELAY ÷ 2 - 1) + 1 /\
      y_delay bp' = Z.rem (drawn w 1) (MAX_DELAY - 1) + 1 /\
      rand_next w' = (2 + rand_next w)%nat /\ screen w' = screen w)
     \/
     (x_pos bp <> left (court w) + 1 /\ x_pos bp = right (court w) - 1 /\
      ~ pad_top pp <= y_pos bp <= pad_bot pp /\
      rv = LOSE /\ x_dir bp' = x_dir bp /\
      x_delay bp' = x_delay bp /\ y_delay bp' = y_delay bp /\
      rand_next w' = rand_next w /\
      screen w' = Mvaddch (y_pos bp) (x_pos bp) BLANK :: screen w)
     \/
     (x_pos bp <> left (court w) + 1 /\ x_pos bp <> right (court w) - 1 /\
      x_dir bp' = x_dir bp /\ w' = w /\
      x_delay bp' = x_delay bp /\ y_delay bp' = y_delay bp /\
      ((rv = BOUNCE /\
        (y_pos bp = top (court w) + 1 \/ y_pos bp = bot (court w) - 1)) \/
       (rv = NO_CONTACT /\ bp' = bp /\
        y_pos bp <> top (court w) + 1 /\ y_pos bp <> bot (court w) - 1)))).
Proof.
  unfold bounce_or_lose, rand_number. run_monad.
  destruct (paddle_contact_cases (y_pos bp) pp) as [(Hc & Hrows) | (Hc & Hrows)];
  (destruct (y_pos bp =? top (court w) + 1) eqn:Et; run_monad;
    [|destruct (y_pos bp =? bot (court w) - 1) eqn:Eb; run_monad];
    cbn [x_pos y_pos set_y_dir];
    (destruct (x_pos bp =? left (court w) + 1) eqn:El; run_monad;
     [|destruct (x_pos bp =? right (court w) - 1) eqn:Er; run_monad;
       [rewrite Hc; cbn [Z.eqb CONTACT NO_CONTACT Pos.eqb]; run_monad|]]);
    reflect_tests;
    (do 3 eexists; split; [reflexivity|]);
    (split; [cbn; repeat split|]);
    (split; [repeat split|]);
    (split; [cbn; first [left; split; [assumption|reflexivity]
                       | right; left; repeat split; assumption
                       | right; right; repeat split; assumption]|]);
    cbn;
    first [left; repeat split; assumption
          | right; left; repeat split; first [assumption | lia]
          | right; right; left; repeat split; first [assumption | lia]
          | right; right; right; repeat split; try assumption;
            first [left; split; [reflexivity|tauto]
                  | right; repeat split; assumption]]).
Qed.

(** After [bounce_or_lose], unless the ball is lost, a ball with unit
    directions heads into the court; the court is left as it was. *)
Lemma bounce_or_lose_turns_ball_inward_aux
      (bp : ppball) (pp : pppaddle) (w : world) :
  top (court w) + 1 <> bot (court w) - 1 ->
  left (court w) + 1 <> right (court w) - 1 ->
  (y_dir bp = 1 \/ y_dir bp = -1) ->
  (x_dir bp = 1 \/ x_dir bp = -1) ->
  exists rv bp' w',
    bounce_or_lose bp pp w = (Val (rv, bp'), w') /\
    x_pos bp' = x_pos bp /\ y_pos bp' = y_pos bp /\
    court w' = court w /\
    (rv <> LOSE -> heading_in (court w) bp').
Proof.
  intros Hrows Hcols Hyd Hxd.
  destruct (bounce_or_lose_effect bp pp w)
    as (rv & bp' & w' & Hrun & (Hxp & Hyp & _) & (_ & _ & Hcourt & _)
        & Hy & Hx).
  exists rv, bp', w'. split; [exact Hrun|]. split; [exact Hxp|].
  split; [exact Hyp|]. split; [exact Hcourt|]. intros Hrv.
  unfold heading_in. rewrite Hxp, Hyp.
  assert (Hy' : (y_dir bp' = 1 \/ y_dir bp' = -1) /\
                (y_pos bp = top (court w) + 1 -> y_dir bp' = 1) /\
                (y_pos bp = bot (court w) - 1 -> y_dir bp' = -1)).
  { destruct Hy as [(Ht & ->) | [(Ht & Hb & ->) | (Ht & Hb & ->)]];
      repeat split; intros; try tauto; lia. }
  assert (Hx' : (x_dir bp' = 1 \/ x_dir bp' = -1) /\
                (x_pos bp = left (court w) + 1 -> x_dir bp' = 1) /\
                (x_pos bp = right (court w) - 1 -> x_dir bp' = -1)).
  { destruct Hx as [(Hl & _ & -> & _)
                   | [(Hl & Hr & _ & _ & -> & _)
                     | [(Hl & Hr & _ & Hlose & _)
                       | (Hl & Hr & -> & _)]]];
      try contradiction;
      repeat split; intros; try tauto; lia. }
  tauto.
Qed.

(** X5.  [bounce_or_lose] returns [LOSE] exactly when the ball is on column
    [right - 1], that column is not also [left + 1], and the ball's row is
    outside [pad_top .. pad_bot]; it returns [NO_CONTACT] exactly when the
    ball is on none of the four trigger coordinates, and then neither the
    ball nor the world changes; on [LOSE] the ball's cell is blanked and
    nothing is drawn from [rand()]. *)
Theorem bounce_or_lose_value :
  forall (bp : ppball) (pp : pppaddle) (w : world),
    exists rv bp' w',
      bounce_or_lose bp pp w = (Val (rv, bp'), w') /\
      (rv = LOSE <->
       x_pos bp <> left (court w) + 1 /\ x_pos bp = right (court w) - 1 /\
       ~ pad_top pp <= y_pos bp <= pad_bot pp) /\
      (rv = NO_CONTACT <->
       y_pos bp <> top (court w) + 1 /\ y_pos bp <> bot (court w) - 1 /\
       x_pos bp <> left (court w) + 1 /\ x_pos bp <> right (court w) - 1) /\
      (rv = NO_CONTACT -> bp' = bp /\ w' = w) /\
      (rv = LOSE ->
       shown (screen w') (y_pos bp) (x_pos bp) = Some BLANK /\
       rand_next w' = rand_next w).
Proof.
  intros bp pp w.
  destruct (bounce_or_lose_effect bp pp w)
    as (rv & bp' & w' & Hrun & _ & _ & _ & Hx).
  exists rv, bp', w'. split; [exact Hrun|].
  unfold LOSE, NO_CONTACT, BOUNCE in *.
  destruct Hx as [(Hl & -> & _ & -> & _)
                 | [(Hl & Hr & Hrows & -> & _)
                   | [(Hl & Hr & Hrows & -> & _ & _ & _ & Hrand & Hscr)
                     | (Hl & Hr & _ & -> & _ & _ & Hy)]]].
  - repeat split; intros; try discriminate; try tauto.
  - repeat split; intros; try discriminate; try tauto.
  - repeat split; intros; try discriminate; try tauto.
    rewrite Hscr. cbn [shown]. now rewrite !Z.eqb_refl.
  - destruct Hy as [(-> & Hy) | (-> & -> & Ht & Hb)];
      repeat split; intros; try discriminate; try tauto.
Qed.

(** X6.  On a court whose trigger rows and trigger columns are distinct, a
    ball with unit directions comes out of [bounce_or_lose] where it was
    and, unless the value is [LOSE], heading into the court: down on row
    [top + 1], up on row [bot - 1], right on column [left + 1], left on
    column [right - 1]. *)
Theorem bounce_or_lose_turns_ball_inward :
  forall (bp : ppball) (pp : pppaddle) (w : world),
    top (court w) + 1 <> bot (court w) - 1 ->
    left (court w) + 1 <> right (court w) - 1 ->
    (y_dir bp = 1 \/ y_dir bp = -1) ->
    (x_dir bp = 1 \/ x_dir bp = -1) ->
    exists rv bp' w',
      bounce_or_lose bp pp w = (Val (rv, bp'), w') /\
      x_pos bp' = x_pos bp /\ y_pos bp' = y_pos bp /\
      (rv <> LOSE -> heading_in (court w) bp').
Proof.
  intros bp pp w Hrows Hcols Hyd Hxd.
  destruct (bounce_or_lose_turns_ball_inward_aux bp pp w Hrows Hcols Hyd Hxd)
    as (rv & bp' & w' & Hrun & Hxp & Hyp & _ & Hin).
  exists rv, bp', w'. auto.
Qed.

(** X7.  On a court with at least two interior rows and columns, a ball
    that is inside the court and heads into it on the trigger coordinates is
    still inside after [ball_move] followed by [bounce_or_lose], and heads
    into the court again unless the value is [LOSE]. *)
Theorem ball_stays_inside_between_walls :
  forall (bp : ppball) (pp : pppaddle) (w : world),
    top (court w) + 1 < bot (court w) - 1 ->
    left (court w) + 1 < right (court w) - 1 ->
    inside (court w) bp -> heading_in (court w) bp ->
    exists bp1 w1 rv bp2 w2,
      ball_move bp w = (Val bp1, w1) /\
      bounce_or_lose bp1 pp w1 = (Val (rv, bp2), w2) /\
      inside (court w) bp2 /\
      (rv <> LOSE -> heading_in (court w) bp2) /\
      court w2 = court w.
Proof.
  intros bp pp w Hrows Hcols ((Hy1 & Hy2) & (Hx1 & Hx2))
         (Hyd & Hxd & Htop & Hbot & Hleft & Hright).
  destruct (ball_move_effect bp w)
    as (bp1 & w1 & Hmove & Hy & Hx & (Eyd & Exd & _) & Hset1 & _).
  destruct Hset1 as (_ & _ & Hcourt1 & _).
  assert (Hyin : top (court w) < y_pos bp1 < bot (court w)).
  { destruct Hy as [(_ & _ & -> & _) | [(_ & _ & -> & _) | (_ & -> & _)]]; lia. }
  assert (Hxin : left (court w) < x_pos bp1 < right (court w)).
  { destruct Hx as [(_ & _ & -> & _) | [(_ & _ & -> & _) | (_ & -> & _)]]; lia. }
  assert (Hyd1 : y_dir bp1 = 1 \/ y_dir bp1 = -1) by (rewrite Eyd; exact Hyd).
  assert (Hxd1 : x_dir bp1 = 1 \/ x_dir bp1 = -1) by (rewrite Exd; exact Hxd).
  destruct (bounce_or_lose_turns_ball_inward_aux bp1 pp w1)
    as (rv & bp2 & w2 & Hrun & Hxp & Hyp & Hcourt2 & Hin);
    try (rewrite Hcourt1; lia); try assumption.
  exists bp1, w1, rv, bp2, w2.
  split; [exact Hmove|]. split; [exact Hrun|].
  split; [unfold inside; rewrite Hxp, Hyp; tauto|].
  split; [|congruence].
  intros Hrv. rewrite <- Hcourt1. exact (Hin Hrv).
Qed.

(** X8.  When the ball is not on column [right - 1] (or is on column
    [left + 1]), [bounce_or_lose] leaves the world as it is, and a second
    call on the ball it returns gives the same value and the same ball: the
    check after a key press changes nothing the check after the last tick
    had not changed. *)
Theorem bounce_or_lose_again_is_same :
  forall (bp : ppball) (pp : pppaddle) (w : world),
    x_pos bp <> right (court w) - 1 \/ x_pos bp = left (court w) + 1 ->
    exists rv bp',
      bounce_or_lose bp pp w = (Val (rv, bp'), w) /\
      bounce_or_lose bp' pp w = (Val (rv, bp'), w).
Proof.
  intros bp pp w Hx.
  unfold bounce_or_lose. run_monad.
  destruct (y_pos bp =? top (court w) + 1) eqn:Et; run_monad;
    [|destruct (y_pos bp =? bot (court w) - 1) eqn:Eb; run_monad];
    cbn [x_pos y_pos set_y_dir];
    (destruct (x_pos bp =? left (court w) + 1) eqn:El; run_monad;
     [|destruct (x_pos bp =? right (court w) - 1) eqn:Er; run_monad;
       [exfalso; reflect_tests; tauto|]]);
    (do 2 eexists; split; [reflexivity|]);
    cbn [x_pos y_pos set_y_dir set_x_dir];
    rewrite ?Et, ?Eb; run_monad;
    cbn [x_pos y_pos set_y_dir set_x_dir];
    rewrite ?El, ?Er; reflexivity.
Qed.

(** With a positive delay and [n + 1] on the counter, [n] calls of
    [ball_move] count the vertical axis down to 1 without a step. *)
Lemma ball_moves_count_down_y (n : nat) :
  forall (bp : ppball) (w : world),
    0 < y_delay bp -> y_count bp = Z.of_nat n + 1 ->
    exists bp1 w1,
      ball_moves n bp w = (Val bp1, w1) /\
      y_pos bp1 = y_pos bp /\ y_count bp1 = 1 /\
      y_dir bp1 = y_dir bp /\ y_delay bp1 = y_delay bp.
Proof.
  induction n as [|n IH]; intros bp w Hd Hc.
  - exists bp, w. repeat split; auto.
  - destruct (ball_move_effect bp w)
      as (bp1 & w1 & Hmove & Hy & _ & (Eyd & _ & Eyl & _) & _).
    assert (Hstep : y_pos bp1 = y_pos bp /\ y_count bp1 = Z.of_nat n + 1).
    { destruct Hy as [(_ & H1 & _) | [(_ & _ & -> & ->) | (H0 & _)]]; lia. }
    destruct Hstep as (Hp1 & Hc1).
    destruct (IH bp1 w1) as (bp2 & w2 & Hrun & Hp2 & Hc2 & Hd2 & Hl2);
      [lia|exact Hc1|].
    exists bp2, w2. split; [cbn [ball_moves]; unfold bind; now rewrite Hmove|].
    repeat split; congruence.
Qed.

Lemma ball_moves_count_down_x (n : nat) :
  forall (bp : ppball) (w : world),
    0 < x_delay bp -> x_count bp = Z.of_nat n + 1 ->
    exists bp1 w1,
      ball_moves n bp w = (Val bp1, w1) /\
      x_pos bp1 = x_pos bp /\ x_count bp1 = 1 /\
      x_dir bp1 = x_dir bp /\ x_delay bp1 = x_delay bp.
Proof.
  induction n as [|n IH]; intros bp w Hd Hc.
  - exists bp, w. repeat split; auto.
  - destruct (ball_move_effect bp w)
      as (bp1 & w1 & Hmove & _ & Hx & (_ & Exd & _ & Exl & _) & _).
    assert (Hstep : x_pos bp1 = x_pos bp /\ x_count bp1 = Z.of_nat n + 1).
    { destruct Hx as [(_ & H1 & _) | [(_ & _ & -> & ->) | (H0 & _)]]; lia. }
    destruct Hstep as (Hp1 & Hc1).
    destruct (IH bp1 w1) as (bp2 & w2 & Hrun & Hp2 & Hc2 & Hd2 & Hl2);
      [lia|exact Hc1|].
    exists bp2, w2. split; [cbn [ball_moves]; unfold bind; now rewrite Hmove|].
    repeat split; congruence.
Qed.

(** X9.  With a positive delay and [n + 1] on its counter, an axis stays
    where it is during [n] calls of [ball_move], and the next call moves it
    by its direction and reloads the counter with the delay; this holds for
    the vertical and for the horizontal axis. *)
Theorem ball_steps_when_counter_runs_out :
  (forall (n : nat) (bp : ppball) (w : world),
      0 < y_delay bp -> y_count bp = Z.of_nat n + 1 ->
      exists bp1 w1 bp2 w2,
        ball_moves n bp w = (Val bp1, w1) /\
        y_pos bp1 = y_pos bp /\
        ball_move bp1 w1 = (Val bp2, w2) /\
        y_pos bp2 = y_pos bp + y_dir bp /\
        y_count bp2 = y_delay bp) /\
  (forall (n : nat) (bp : ppball) (w : world),
      0 < x_delay bp -> x_count bp = Z.of_nat n + 1 ->
      exists bp1 w1 bp2 w2,
        ball_moves n bp w = (Val bp1, w1) /\
        x_pos bp1 = x_pos bp /\
        ball_move bp1 w1 = (Val bp2, w2) /\
        x_pos bp2 = x_pos bp + x_dir bp /\
        x_count bp2 = x_delay bp).
Proof.
  split; intros n bp w Hd Hc.
  - destruct (ball_moves_count_down_y n bp w Hd Hc)
      as (bp1 & w1 & Hrun & Hp & Hc1 & Hdir & Hdel).
    destruct (ball_move_effect bp1 w1) as (bp2 & w2 & Hmove & Hy & _).
    exists bp1, w1, bp2, w2.
    split; [exact Hrun|]. split; [exact Hp|]. split; [exact Hmove|].
    destruct Hy as [(_ & _ & -> & ->) | [(_ & Hne & _) | (H0 & _)]];
      [split; congruence | contradiction | lia].
  - destruct (ball_moves_count_down_x n bp w Hd Hc)
      as (bp1 & w1 & Hrun & Hp & Hc1 & Hdir & Hdel).
    destruct (ball_move_effect bp1 w1) as (bp2 & w2 & Hmove & _ & Hx & _).
    exists bp1, w1, bp2, w2.
    split; [exact Hrun|]. split; [exact Hp|]. split; [exact Hmove|].
    destruct Hx as [(_ & _ & -> & ->) | [(_ & Hne & _) | (H0 & _)]];
      [split; congruence | contradiction | lia].
Qed.

(** X10.  [ball_move] moves the ball by at most its direction on each
    axis, never changes a direction or a delay and draws nothing from
    [rand()]; either the ball stays and the world is untouched, or the old
    cell is blanked and the ball is drawn on the new one. *)
Theorem ball_move_steps_one_cell_and_redraws :
  forall (bp : ppball) (w : world),
    exists bp1 w1,
      ball_move bp w = (Val bp1, w1) /\
      (y_pos bp1 = y_pos bp \/ y_pos bp1 = y_pos bp + y_dir bp) /\
      (x_pos bp1 = x_pos bp \/ x_pos bp1 = x_pos bp + x_dir bp) /\
      y_dir bp1 = y_dir bp /\ x_dir bp1 = x_dir bp /\
      y_delay bp1 = y_delay bp /\ x_delay bp1 = x_delay bp /\
      rand_next w1 = rand_next w /\
      ((w1 = w /\ y_pos bp1 = y_pos bp /\ x_pos bp1 = x_pos bp) \/
       (screen w1 = Refresh :: Move (LINES w - 1) (COLS w - 1)
                    :: Mvaddch (y_pos bp1) (x_pos bp1) (symbol bp)
                    :: Mvaddch (y_pos bp) (x_pos bp) BLANK :: screen w /\
        shown (screen w1) (y_pos bp1) (x_pos bp1) = Some (symbol bp))).
Proof.
  intros bp w.
  destruct (ball_move_effect bp w)
    as (bp1 & w1 & Hmove & Hy & Hx & (Eyd & Exd & Eyl & Exl & _) & _
        & Hrand & Hscr).
  exists bp1, w1. split; [exact Hmove|].
  split; [destruct Hy as [H | [H | H]]; tauto|].
  split; [destruct Hx as [H | [H | H]]; tauto|].
  do 5 (split; [assumption|]).
  destruct Hscr as [(-> & Hny & Hnx) | (Hs & _)].
  - left. split; [reflexivity|].
    split; [destruct Hy as [H | [H | H]]; tauto
           |destruct Hx as [H | [H | H]]; tauto].
  - right. split; [exact Hs|]. rewrite Hs. cbn [shown].
    now rewrite !Z.eqb_refl.
Qed.

(** X11.  On the court of a terminal of the enforced size, [serve] returns
    a ball strictly inside the court, with both directions -1 or 1, positive
    delays and each counter loaded with its delay; it draws exactly six
    values from [rand()], leaves the ball's symbol on the ball's cell and
    keeps the court, the clock and the terminal. *)
Theorem serve_puts_ball_in_play :
  forall (l c : Z) (w : world) (bp : ppball),
    MIN_LINES <= l -> MIN_COLS <= c -> terminal l c w ->
    exists bp' w',
      serve bp w = (Val bp', w') /\
      inside (court w) bp' /\
      (y_dir bp' = -1 \/ y_dir bp' = 1) /\
      (x_dir bp' = -1 \/ x_dir bp' = 1) /\
      0 < y_delay bp' /\ y_count bp' = y_delay bp' /\
      0 < x_delay bp' /\ x_count bp' = x_delay bp' /\
      rand_next w' = (6 + rand_next w)%nat /\
      shown (screen w') (y_pos bp') (x_pos bp') = Some BALL_SYMBOL /\
      same_setting w w'.
Proof.
  intros l c w bp Hl Hc (HL & HC & Hcourt).
  destruct (Ball.serve_returns bp w) as (bp' & Hinit & Hserve).
  destruct (Ball.ball_init_returns bp w)
    as (bp2 & Hinit2 & _ & Hy & Hx & Hyd & Hxd & Hydel & Hxdel & Hyc & Hxc & Hsym).
  rewrite Hinit in Hinit2. injection Hinit2 as <-.
  exists bp'. eexists. split; [exact Hserve|].
  cbn [screen set_screen rand_next set_rand_next shown].
  rewrite !Z.eqb_refl, Hsym. cbn [andb].
  split.
  { unfold inside. rewrite Hy, Hx, Hcourt; cbn [top bot left right].
    unfold BORDER, MIN_LINES, MIN_COLS in *.
    pose proof (Ball.drawn_in_range w 0 (l - 3 - 1 - 1 - (3 + 1)) (3 + 1)).
    pose proof (Ball.drawn_in_range w 1 (c - 3 - 1 - 1 - (3 + 1)) (3 + 1)).
    lia. }
  split; [exact Hyd|]. split; [exact Hxd|].
  unfold MAX_DELAY in *. change (10 ÷ 2) with 5 in *.
  pose proof (Ball.drawn_in_range w 4 (10 - 1) 1).
  pose proof (Ball.drawn_in_range w 5 (5 - 1) 1).
  split; [lia|]. split; [exact Hyc|]. split; [lia|]. split; [exact Hxc|].
  split; [reflexivity|]. split; [reflexivity|]. repeat split.
Qed.

(** X12.  When the ball is on column [right - 1] at a row the paddle
    covers, [bounce_or_lose] returns [BOUNCE], turns the ball left and draws
    two values from [rand()] for new delays, the horizontal one in
    [1, MAX_DELAY / 2 - 1] and the vertical one in [1, MAX_DELAY - 1]; the
    counters and the position are not touched and nothing is drawn on the
    screen. *)
Theorem paddle_hit_draws_new_delays :
  forall (bp : ppball) (pp : pppaddle) (w : world),
    x_pos bp = right (court w) - 1 ->
    x_pos bp <> left (court w) + 1 ->
    pad_top pp <= y_pos bp <= pad_bot pp ->
    exists bp' w',
      bounce_or_lose bp pp w = (Val (BOUNCE, bp'), w') /\
      x_dir bp' = -1 /\
      1 <= x_delay bp' <= MAX_DELAY ÷ 2 - 1 /\
      1 <= y_delay bp' <= MAX_DELAY - 1 /\
      x_count bp' = x_count bp /\ y_count bp' = y_count bp /\
      x_pos bp' = x_pos bp /\ y_pos bp' = y_pos bp /\
      rand_next w' = (2 + rand_next w)%nat /\ screen w' = screen w.
Proof.
  intros bp pp w Hright Hleft Hrows.
  destruct (bounce_or_lose_effect bp pp w)
    as (rv & bp' & w' & Hrun & (Hxp & Hyp & _ & _ & Hxc & Hyc) & _ & _ & Hx).
  destruct Hx as [(Hl & _)
                 | [(_ & _ & _ & -> & Hdir & Hxd & Hyd & Hrand & Hscr)
                   | [(_ & _ & Hno & _) | (_ & Hr & _)]]];
    try contradiction.
  exists bp', w'. split; [exact Hrun|]. split; [exact Hdir|].
  rewrite Hxd, Hyd. unfold MAX_DELAY. change (10 ÷ 2) with 5.
  pose proof (Ball.drawn_in_range w 0 (5 - 1) 1).
  pose proof (Ball.drawn_in_range w 1 (10 - 1) 1).
  repeat split; try assumption; lia.
Qed.

End BallFacts.

(** ** More on pong.c: the game as a whole *)

Module Game.

Lemma same_setting_trans (w1 w2 w3 : world) :
  same_setting w1 w2 -> same_setting w2 w3 -> same_setting w1 w3.
Proof.
  intros (A1 & A2 & A3 & A4 & A5) (B1 & B2 & B3 & B4 & B5).
  repeat split; congruence.
Qed.

(** [serve] takes a ball off the count and keeps the setting. *)
Lemma serve_effect (bp : ppball) (w : world) :
  exists bp' w',
    serve bp w = (Val bp', w') /\
    get_balls_left bp' = get_balls_left bp - 1 /\
    same_setting w w'.
Proof.
  destruct (Ball.serve_returns bp w) as (bp' & Hinit & Hserve).
  destruct (Ball.ball_init_returns bp w) as (bp2 & Hinit2 & Hrem & _).
  rewrite Hinit in Hinit2. injection Hinit2 as <-.
  exists bp'. eexists. split; [exact Hserve|]. split; [exact Hrem|].
  repeat split.
Qed.

(** The round either goes on, with the paddle it had and no more balls than
    before, or it ends the process with code 0, and then no ball was left. *)
Lemma is_next_round_effect (g : pong) (w : world) :
  0 <= get_balls_left (ball g) ->
  (exists g' w',
      is_next_round g w = (Val g', w') /\
      paddle g' = paddle g /\
      0 <= get_balls_left (ball g') <= get_balls_left (ball g) /\
      same_setting w w') \/
  (exists w',
      is_next_round g w = (Exited 0, w') /\
      get_balls_left (ball g) = 0).
Proof.
  intros Hleft.
  destruct (BallFacts.bounce_or_lose_effect (ball g) (paddle g) w)
    as (rv & bp' & w1 & Hrun & (_ & _ & Hrem & _) & Hset & _ & Hx).
  assert (Hround :
    is_next_round g w =
    (if rv =? LOSE then
       if get_balls_left bp' >? 0
       then b <- serve bp' ;; ret {| paddle := paddle g; ball := b |}
       else exit_message ;; wrap_up ;; exit 0
     else ret {| paddle := paddle g; ball := bp' |}) w1).
  { unfold is_next_round. unfold bind at 1. rewrite Hrun. reflexivity. }
  assert (Hrv : rv = LOSE \/ rv = BOUNCE \/ rv = NO_CONTACT).
  { destruct Hx as [H | [H | [H | H]]]; tauto. }
  unfold get_balls_left in *.
  destruct Hrv as [-> | [-> | ->]];
    change (LOSE =? LOSE) with true in Hround;
    change (BOUNCE =? LOSE) with false in Hround;
    change (NO_CONTACT =? LOSE) with false in Hround.
  - destruct (remain bp' >? 0) eqn:Emore; reflect_tests.
    + destruct (serve_effect bp' w1) as (b & w2 & Hserve & Hb & Hset2).
      left. exists {| paddle := paddle g; ball := b |}, w2.
      split; [rewrite Hround; unfold bind; now rewrite Hserve|].
      split; [reflexivity|]. cbn [ball]. unfold get_balls_left in Hb.
      split; [lia|]. exact (same_setting_trans _ _ _ Hset Hset2).
    + right. eexists. split; [rewrite Hround; reflexivity|]. lia.
  - left. exists {| paddle := paddle g; ball := bp' |}, w1.
    split; [exact Hround|]. split; [reflexivity|]. cbn [ball].
    split; [lia|exact Hset].
  - left. exists {| paddle := paddle g; ball := bp' |}, w1.
    split; [exact Hround|]. split; [reflexivity|]. cbn [ball].
    split; [lia|exact Hset].
Qed.

(** [clock_tick] touches the clock and the screen only. *)
Lemma clock_tick_frame (w : world) :
  exists w',
    clock_tick w = (Val tt, w') /\
    LINES w' = LINES w /\ COLS w' = COLS w /\ court w' = court w /\
    rand_tape w' = rand_tape w /\ rand_next w' = rand_next w.
Proof.
  unfold clock_tick, print_time. run_monad.
  destruct (ticks (clock w) + 1 =? TICKS_PER_SEC); run_monad;
    [destruct (secs (clock w) + 1 =? MINUTE); run_monad|];
    eexists; split; try reflexivity; repeat split.
Qed.

(** What stays true from one input of the game to the next: the balls left
    are between 0 and [NUM_BALLS - 1], the clock has counted the alarms, and
    the terminal and the court are those of the start. *)
Lemma alarm_handler_effect (g : pong) (w : world) (k : Z) :
  0 <= get_balls_left (ball g) ->
  clock_at k (clock w) ->
  (exists g' w',
      alarm_handler g w = (Val g', w') /\
      paddle g' = paddle g /\
      0 <= get_balls_left (ball g') <= get_balls_left (ball g) /\
      clock_at (k + 1) (clock w') /\
      LINES w' = LINES w /\ COLS w' = COLS w /\ court w' = court w) \/
  (exists w', alarm_handler g w = (Exited 0, w')).
Proof.
  intros Hleft Hk. unfold alarm_handler.
  destruct (Clock.clock_tick_returns w) as (w1 & Htick & Hstep).
  destruct (clock_tick_frame w) as (w1' & Htick' & HL1 & HC1 & Hcrt1 & _).
  rewrite Htick in Htick'. injection Htick' as <-.
  destruct (BallFacts.ball_move_effect (ball g) w1)
    as (bp1 & w2 & Hmove & _ & _ & (_ & _ & _ & _ & Hrem & _) & Hset2 & _).
  destruct (is_next_round_effect {| paddle := paddle g; ball := bp1 |} w2)
    as [(g' & w3 & Hround & Hpad & Hrange & Hset3) | (w3 & Hround & _)].
  - cbn [ball]. unfold get_balls_left in *. lia.
  - left. exists g', w3.
    split; [unfold bind; now rewrite Htick, Hmove|].
    cbn [paddle ball] in *. unfold get_balls_left in *.
    destruct (same_setting_trans _ _ _ Hset2 Hset3) as (A1 & A2 & A3 & A4 & _).
    split; [exact Hpad|]. split; [lia|].
    split; [rewrite A4; exact (Hstep k Hk)|].
    repeat split; congruence.
  - right. exists w3. unfold bind. now rewrite Htick, Hmove.
Qed.

Lemma key_effect (c : ascii) (g : pong) (w : world) :
  0 <= get_balls_left (ball g) ->
  (exists g' w',
      (if Ascii.eqb c "k" then up_paddle g
       else if Ascii.eqb c "m" then down_paddle g
       else ret g) w = (Val g', w') /\
      0 <= get_balls_left (ball g') <= get_balls_left (ball g) /\
      same_setting w w') \/
  (exists w',
      (if Ascii.eqb c "k" then up_paddle g
       else if Ascii.eqb c "m" then down_paddle g
       else ret g) w = (Exited 0, w')).
Proof.
  intros Hleft.
  assert (Hpaddle : forall mv,
    (exists g' w',
        (p <- paddle_step mv (paddle g) ;;
         is_next_round {| paddle := p; ball := ball g |}) w = (Val g', w') /\
        0 <= get_balls_left (ball g') <= get_balls_left (ball g) /\
        same_setting w w') \/
    (exists w',
        (p <- paddle_step mv (paddle g) ;;
         is_next_round {| paddle := p; ball := ball g |}) w = (Exited 0, w'))).
  { intros mv.
    destruct (PaddleFacts.paddle_step_effect mv (paddle g) w)
      as (p & w1 & Hstep & Hset1 & _).
    destruct (is_next_round_effect {| paddle := p; ball := ball g |} w1 Hleft)
      as [(g' & w2 & Hround & _ & Hrange & Hset2) | (w2 & Hround & _)].
    - left. exists g', w2. split; [unfold bind; now rewrite Hstep|].
      split; [exact Hrange|]. exact (same_setting_trans _ _ _ Hset1 Hset2).
    - right. exists w2. unfold bind. now rewrite Hstep. }
  destruct (Ascii.eqb c "k"); [exact (Hpaddle Up)|].
  destruct (Ascii.eqb c "m"); [exact (Hpaddle Down)|].
  left. exists g, w. split; [reflexivity|]. split; [lia|]. repeat split.
Qed.

Lemma main_loop_effect (ins : list input) :
  forall (in_getch : bool) (g : pong) (w : world) (k : Z),
    0 <= get_balls_left (ball g) <= NUM_BALLS - 1 ->
    clock_at k (clock w) ->
    (exists g' w',
        main_loop ins in_getch g w = (Val g', w') /\
        0 <= get_balls_left (ball g') <= NUM_BALLS - 1 /\
        clock_at (k + Z.of_nat (alarms ins)) (clock w') /\
        LINES w' = LINES w /\ COLS w' = COLS w /\ court w' = court w) \/
    (exists w', main_loop ins in_getch g w = (Exited 0, w')).
Proof.
  induction ins as [|i rest IH]; intros in_getch g w k Hrange Hk.
  - left. exists g, w. split.
    + cbn [main_loop].
      replace (get_balls_left (ball g) >=? 0) with true
        by (symmetry; apply Z.geb_le; lia).
      now rewrite andb_false_r.
    + cbn [alarms Z.of_nat]. rewrite Z.add_0_r.
      split; [exact Hrange|]. split; [exact Hk|]. repeat split.
  - cbn [main_loop].
    replace (get_balls_left (ball g) >=? 0) with true
      by (symmetry; apply Z.geb_le; lia).
    rewrite andb_false_r. destruct i as [|c].
    + destruct (alarm_handler_effect g w k) as
        [(g1 & w1 & Hrun & _ & Hr1 & Hk1 & HL & HC & Hcrt) | (w1 & Hrun)];
        [lia|exact Hk| |].
      * destruct (IH true g1 w1 (k + 1)) as
          [(g2 & w2 & Hrun2 & Hr2 & Hk2 & HL2 & HC2 & Hcrt2) | (w2 & Hrun2)];
          [lia|exact Hk1| |].
        -- left. exists g2, w2.
           split; [unfold bind; now rewrite Hrun|].
           split; [exact Hr2|].
           split; [cbn [alarms];
                   now replace (k + Z.of_nat (S (alarms rest)))
                     with (k + 1 + Z.of_nat (alarms rest)) by lia|].
           repeat split; congruence.
        -- right. exists w2. unfold bind. now rewrite Hrun.
      * right. exists w1. unfold bind. now rewrite Hrun.
    + destruct (Ascii.eqb c "Q").
      * right. eexists. reflexivity.
      * destruct (key_effect c g w) as
          [(g1 & w1 & Hrun & Hr1 & Hset) | (w1 & Hrun)]; [lia| |].
        -- destruct Hset as (A1 & A2 & A3 & A4 & _).
           destruct (IH false g1 w1 k) as
             [(g2 & w2 & Hrun2 & Hr2 & Hk2 & HL2 & HC2 & Hcrt2) | (w2 & Hrun2)];
             [lia|now rewrite A4| |].
           ++ left. exists g2, w2.
              split; [unfold bind; now rewrite Hrun|].
              split; [exact Hr2|]. split; [exact Hk2|].
              repeat split; congruence.
           ++ right. exists w2. unfold bind. now rewrite Hrun.
        -- right. exists w1. unfold bind. now rewrite Hrun.
Qed.

(** On a terminal of the enforced size [set_up] returns with the game laid
    out. *)
Lemma set_up_effect (junk : ppball) (w : world) :
  MIN_LINES <= LINES w -> MIN_COLS <= COLS w ->
  exists g w',
    set_up junk w = (Val g, w') /\
    terminal (LINES w) (COLS w) w' /\
    off_borders (paddle g) /\
    pad_mintop (paddle g) = top (court w') /\
    pad_maxbot (paddle g) = bot (court w') /\
    pad_col (paddle g) = right (court w') /\
    get_balls_left (ball g) = NUM_BALLS /\
    clock w' = {| mins := 0; secs := 0; ticks := 0 |} /\
    rand_next w' = rand_next w /\ rand_tape w' = rand_tape w /\
    exists s, screen w' = SetTicker 20 :: s.
Proof.
  intros Hl Hc. unfold set_up, is_min_size, court_init, new_ball, clock_init.
  run_monad.
  replace (LINES w <? MIN_LINES) with false by (symmetry; apply Z.ltb_ge; lia).
  replace (COLS w <? MIN_COLS) with false by (symmetry; apply Z.ltb_ge; lia).
  cbn [orb]. run_monad.
  match goal with
  | |- context [new_paddle ?w0] =>
      destruct (Paddle.new_paddle_returns w0) as (s & Hs); rewrite Hs
  end.
  run_monad.
  match goal with
  | |- context [print_court ?n ?w2] =>
      destruct (Pong.print_court_returns n w2) as (s2 & Hs2); rewrite Hs2
  end.
  run_monad.
  do 2 eexists. split; [reflexivity|].
  cbn [paddle ball get_balls_left remain set_remain
       pad_mintop pad_maxbot pad_col top bot right].
  split; [repeat split|].
  split.
  { unfold off_borders, court_height;
      cbn [pad_mintop pad_top pad_bot pad_maxbot top bot].
    unfold BORDER, MIN_LINES in *.
    split; Z.to_euclidean_division_equations; lia. }
  repeat split. eexists. reflexivity.
Qed.

(** X13.  With at least 11 lines and 40 columns [set_up] returns: the court
    is [top = 3, bot = LINES - 4, left = 3, right = COLS - 4], the paddle is
    strictly between the top and bottom borders in the column of the right
    edge, the ball holds [NUM_BALLS] balls, the clock is at zero, nothing was
    drawn from [rand()] and the ticker was started last, at 20 ms.  On any
    smaller terminal [set_up] stops the ticker, closes the terminal, writes
    the diagnostic and exits with code 1, with the court untouched. *)
Theorem set_up_checks_terminal_size :
  forall (junk : ppball) (w : world),
    (MIN_LINES <= LINES w /\ MIN_COLS <= COLS w /\
     exists g w',
       set_up junk w = (Val g, w') /\
       court w' = {| top := 3; right := COLS w - 4;
                     bot := LINES w - 4; left := 3 |} /\
       top (court w') + 3 < bot (court w') /\
       left (court w') + 3 < right (court w') /\
       top (court w') < pad_top (paddle g) /\
       pad_bot (paddle g) < bot (court w') /\
       pad_col (paddle g) = right (court w') /\
       get_balls_left (ball g) = NUM_BALLS /\
       clock w' = {| mins := 0; secs := 0; ticks := 0 |} /\
       rand_next w' = rand_next w /\
       exists s, screen w' = SetTicker 20 :: s)
    \/
    ((LINES w < MIN_LINES \/ COLS w < MIN_COLS) /\
     exists w',
       set_up junk w = (Exited 1, w') /\
       screen w' = Stderr_too_small :: Endwin :: SetTicker 0 :: screen w /\
       court w' = court w /\ rand_next w' = rand_next w).
Proof.
  intros junk w.
  destruct (Z.lt_ge_cases (LINES w) MIN_LINES) as [Hl | Hl];
    [|destruct (Z.lt_ge_cases (COLS w) MIN_COLS) as [Hc | Hc]].
  - right. split; [left; exact Hl|].
    unfold set_up, is_min_size, wrap_up. run_monad.
    replace (LINES w <? MIN_LINES) with true by (symmetry; now apply Z.ltb_lt).
    cbn [orb]. run_monad. eexists. split; [reflexivity|]. repeat split.
  - right. split; [right; exact Hc|].
    unfold set_up, is_min_size, wrap_up. run_monad.
    replace (COLS w <? MIN_COLS) with true by (symmetry; now apply Z.ltb_lt).
    rewrite orb_true_r. run_monad. eexists. split; [reflexivity|]. repeat split.
  - left. split; [exact Hl|]. split; [exact Hc|].
    destruct (set_up_effect junk w Hl Hc)
      as (g & w' & Hrun & (_ & _ & Hcourt) & [Ht Hb] & Hmin & Hmax & Hcol
          & Hballs & Hclock & Hrand & _ & Hscr).
    exists g, w'. split; [exact Hrun|].
    rewrite Hmin in Ht. rewrite Hmax in Hb.
    rewrite Hcourt in *; cbn [top bot left right] in *.
    unfold BORDER, MIN_LINES, MIN_COLS in *.
    split; [f_equal; lia|].
    repeat split; try assumption; lia.
Qed.

(** The game from the start: it goes on with some balls left and the clock
    at the number of alarms, or it has ended with code 0. *)
Lemma main_effect (junk : ppball) (ins : list input) (w : world) :
  MIN_LINES <= LINES w -> MIN_COLS <= COLS w ->
  (exists g w',
      main junk ins w = (Val g, w') /\
      0 <= get_balls_left (ball g) <= NUM_BALLS - 1 /\
      clock_at (Z.of_nat (alarms ins)) (clock w') /\
      terminal (LINES w) (COLS w) w') \/
  (exists w', main junk ins w = (Exited 0, w')).
Proof.
  intros Hl Hc.
  destruct (set_up_effect junk w Hl Hc)
    as (g0 & w0 & Hset & (HL & HC & Hcourt) & _ & _ & _ & _ & Hballs
        & Hclock & _).
  destruct (serve_effect (ball g0) w0)
    as (b & w1 & Hserve & Hb & (A1 & A2 & A3 & A4 & _)).
  destruct (main_loop_effect ins false {| paddle := paddle g0; ball := b |}
              w1 0) as
    [(g & w' & Hloop & Hrange & Hk & HL' & HC' & Hcrt') | (w' & Hloop)].
  - cbn [ball]. rewrite Hb, Hballs. unfold NUM_BALLS. lia.
  - rewrite A4, Hclock. repeat split.
  - left. exists g, w'.
    split; [unfold main, bind; now rewrite Hset, Hserve|].
    split; [exact Hrange|]. split; [exact Hk|].
    repeat split; congruence.
  - right. exists w'. unfold main, bind. now rewrite Hset, Hserve.
Qed.

Lemma main_on_small_terminal (junk : ppball) (ins : list input) (w : world) :
  LINES w < MIN_LINES \/ COLS w < MIN_COLS ->
  exists w', main junk ins w = (Exited 1, w').
Proof.
  intros Hsmall.
  destruct (Pong.set_up_refuses_small_terminal junk w Hsmall) as (w' & Hrun).
  exists w'. unfold main, bind. now rewrite Hrun.
Qed.


(** X15.  While the game goes on, the clock holds the number of alarms
    delivered so far: [get_secs] returns that number divided by 50, modulo
    60, [get_mins] the minutes, whatever keys were pressed and however often
    the ball was served again; the court is the one [set_up] laid out. *)
Theorem game_clock_counts_alarms :
  forall (junk : ppball) (ins : list input) (w : world) (g : pong) (w' : world),
    main junk ins w = (Val g, w') ->
    clock_at (Z.of_nat (alarms ins)) (clock w') /\
    get_secs w' = (Val ((Z.of_nat (alarms ins) / TICKS_PER_SEC) mod MINUTE), w') /\
    get_mins w' = (Val (Z.of_nat (alarms ins) / TICKS_PER_SEC / MINUTE), w') /\
    court w' = {| top := BORDER; right := COLS w - BORDER - 1;
                  bot := LINES w - BORDER - 1; left := BORDER |}.
Proof.
  intros junk ins w g w' Hrun.
  destruct (Z.lt_ge_cases (LINES w) MIN_LINES) as [Hl | Hl];
    [|destruct (Z.lt_ge_cases (COLS w) MIN_COLS) as [Hc | Hc]].
  - destruct (main_on_small_terminal junk ins w (or_introl Hl)) as (w1 & H1).
    rewrite Hrun in H1. discriminate.
  - destruct (main_on_small_terminal junk ins w (or_intror Hc)) as (w1 & H1).
    rewrite Hrun in H1. discriminate.
  - destruct (main_effect junk ins w Hl Hc)
      as [(g1 & w1 & H1 & _ & Hk & (_ & _ & Hcourt)) | (w1 & H1)];
      rewrite Hrun in H1; [|discriminate].
    injection H1 as <- <-.
    split; [exact Hk|]. destruct Hk as (_ & Hs & Hm).
    unfold get_secs, get_mins, gets. rewrite Hs, Hm.
    repeat split. exact Hcourt.
Qed.

End Game.

(** ** The further statements at concrete inputs *)

Module MoreInstances.

Lemma small_world_terminal : terminal 11 40 small_world.
Proof. repeat split. Qed.

Lemma paddle_keeps_height_off_borders_witness :
  exists pp w1 pp' w2,
    new_paddle small_world = (Val pp, w1) /\
    paddle_moves [Up; Up; Up; Down; Down; Down; Down] pp w1 = (Val pp', w2) /\
    top (court small_world) < pad_top pp' /\
    pad_bot pp' < bot (court small_world) /\
    paddle_height pp' = paddle_height pp /\
    paddle_height pp' = (11 - 8) ÷ 3 /\ 1 <= paddle_height pp' /\
    pad_col pp' = right (court small_world) /\
    court w2 = court small_world /\ rand_next w2 = rand_next small_world.
Proof.
  apply (PaddleFacts.paddle_keeps_height_off_borders 11 40).
  - unfold MIN_LINES; lia.
  - unfold MIN_COLS; lia.
  - exact small_world_terminal.
Defined.

Lemma paddle_moves_back_witness :
  (exists pp1 w1 w2,
      paddle_up small_paddle small_world = (Val pp1, w1) /\
      pad_top pp1 = pad_top small_paddle - 1 /\
      pad_bot pp1 = pad_bot small_paddle - 1 /\
      paddle_down pp1 w1 = (Val small_paddle, w2)) /\
  (exists pp1 w1 w2,
      paddle_down small_paddle small_world = (Val pp1, w1) /\
      pad_top pp1 = pad_top small_paddle + 1 /\
      pad_bot pp1 = pad_bot small_paddle + 1 /\
      paddle_up pp1 w1 = (Val small_paddle, w2)).
Proof.
  split.
  - apply (proj1 PaddleFacts.paddle_moves_back); cbn; lia.
  - apply (proj2 PaddleFacts.paddle_moves_back); cbn; lia.
Defined.

Lemma screen_shows_the_paddle_witness :
  exists pp w1 pp' w2,
    new_paddle small_world = (Val pp, w1) /\
    paddle_moves [Up; Down; Down] pp w1 = (Val pp', w2) /\
    forall y x : Z,
      (x = pad_col pp' -> pad_top pp' <= y <= pad_bot pp' ->
       shown (screen w2) y x = Some PADDLE_SYMBOL) /\
      (x = pad_col pp' -> ~ pad_top pp' <= y <= pad_bot pp' ->
       shown (screen w2) y x = Some BLANK \/
       shown (screen w2) y x = shown (screen small_world) y x) /\
      (x <> pad_col pp' ->
       shown (screen w2) y x = shown (screen small_world) y x).
Proof.
  apply (PaddleFacts.screen_shows_the_paddle 11 40).
  - unfold MIN_LINES; lia.
  - unfold MIN_COLS; lia.
  - exact small_world_terminal.
Defined.

Lemma bounce_or_lose_turns_ball_inward_witness :
  exists rv bp' w',
    bounce_or_lose (corner_ball 2) (shift_paddle (-1) small_paddle) small_world
    = (Val (rv, bp'), w') /\
    x_pos bp' = x_pos (corner_ball 2) /\ y_pos bp' = y_pos (corner_ball 2) /\
    (rv <> LOSE -> heading_in (court small_world) bp').
Proof.
  apply BallFacts.bounce_or_lose_turns_ball_inward.
  - cbn; lia.
  - cbn; lia.
  - right; reflexivity.
  - left; reflexivity.
Defined.

Lemma ball_stays_inside_between_walls_witness :
  exists bp1 w1 rv bp2 w2,
    ball_move (center_ball 1) small_world = (Val bp1, w1) /\
    bounce_or_lose bp1 small_paddle w1 = (Val (rv, bp2), w2) /\
    inside (court small_world) bp2 /\
    (rv <> LOSE -> heading_in (court small_world) bp2) /\
    court w2 = court small_world.
Proof.
  apply BallFacts.ball_stays_inside_between_walls.
  - cbn; lia.
  - cbn; lia.
  - unfold inside, small_world, ready, BORDER; cbn; lia.
  - unfold heading_in, small_world, ready, BORDER; cbn.
    split; [left; reflexivity|]. split; [right; reflexivity|].
    repeat split; intros H; lia.
Defined.

(** X8 on the row above the bottom border: the first call turns the ball up
    and returns [BOUNCE]; the second call returns the same. *)
Lemma bounce_or_lose_again_is_same_witness :
  y_pos (set_y_pos 6 (center_ball 1)) = bot (court small_world) - 1 /\
  y_dir (set_y_pos 6 (center_ball 1)) = 1 /\
  exists rv bp',
    bounce_or_lose (set_y_pos 6 (center_ball 1)) small_paddle small_world
    = (Val (rv, bp'), small_world) /\
    bounce_or_lose bp' small_paddle small_world = (Val (rv, bp'), small_world) /\
    rv = BOUNCE /\ y_dir bp' = -1.
Proof.
  split; [reflexivity|]. split; [reflexivity|].
  destruct (BallFacts.bounce_or_lose_again_is_same
              (set_y_pos 6 (center_ball 1)) small_paddle small_world)
    as (rv & bp' & Hfirst & Hsecond).
  - left. cbn. lia.
  - exists rv, bp'. split; [exact Hfirst|]. split; [exact Hsecond|].
    vm_compute in Hfirst. injection Hfirst as <- <-.
    split; reflexivity.
Defined.

Lemma ball_steps_when_counter_runs_out_witness :
  (exists bp1 w1 bp2 w2,
      ball_moves 2 (center_ball 3) small_world = (Val bp1, w1) /\
      y_pos bp1 = y_pos (center_ball 3) /\
      ball_move bp1 w1 = (Val bp2, w2) /\
      y_pos bp2 = y_pos (center_ball 3) + y_dir (center_ball 3) /\
      y_count bp2 = y_delay (center_ball 3)) /\
  (exists bp1 w1 bp2 w2,
      ball_moves 2 (center_ball 3) small_world = (Val bp1, w1) /\
      x_pos bp1 = x_pos (center_ball 3) /\
      ball_move bp1 w1 = (Val bp2, w2) /\
      x_pos bp2 = x_pos (center_ball 3) + x_dir (center_ball 3) /\
      x_count bp2 = x_delay (center_ball 3)).
Proof.
  split.
  - apply (proj1 BallFacts.ball_steps_when_counter_runs_out); cbn; lia.
  - apply (proj2 BallFacts.ball_steps_when_counter_runs_out); cbn; lia.
Defined.

Lemma serve_puts_ball_in_play_witness :
  exists bp' w',
    serve zero_ball small_world = (Val bp', w') /\
    inside (court small_world) bp' /\
    (y_dir bp' = -1 \/ y_dir bp' = 1) /\
    (x_dir bp' = -1 \/ x_dir bp' = 1) /\
    0 < y_delay bp' /\ y_count bp' = y_delay bp' /\
    0 < x_delay bp' /\ x_count bp' = x_delay bp' /\
    rand_next w' = (6 + rand_next small_world)%nat /\
    shown (screen w') (y_pos bp') (x_pos bp') = Some BALL_SYMBOL /\
    same_setting small_world w'.
Proof.
  apply (BallFacts.serve_puts_ball_in_play 11 40).
  - unfold MIN_LINES; lia.
  - unfold MIN_COLS; lia.
  - exact small_world_terminal.
Defined.

Lemma paddle_hit_draws_new_delays_witness :
  exists bp' w',
    bounce_or_lose (corner_ball 2) (shift_paddle (-1) small_paddle) small_world
    = (Val (BOUNCE, bp'), w') /\
    x_dir bp' = -1 /\
    1 <= x_delay bp' <= MAX_DELAY ÷ 2 - 1 /\
    1 <= y_delay bp' <= MAX_DELAY - 1 /\
    x_count bp' = x_count (corner_ball 2) /\
    y_count bp' = y_count (corner_ball 2) /\
    x_pos bp' = x_pos (corner_ball 2) /\ y_pos bp' = y_pos (corner_ball 2) /\
    rand_next w' = (2 + rand_next small_world)%nat /\
    screen w' = screen small_world.
Proof.
  apply BallFacts.paddle_hit_draws_new_delays.
  - reflexivity.
  - cbn; lia.
  - cbn; lia.
Defined.

Lemma game_clock_counts_alarms_witness :
  exists g w',
    main zero_ball [Alarm; Key "k"; Alarm]
      (boot 11 40 (tape_of [1; 10; 1; 0; 3; 2]%N)) = (Val g, w') /\
    (clock_at (Z.of_nat (alarms [Alarm; Key "k"; Alarm])) (clock w') /\
     get_secs w' =
       (Val ((Z.of_nat (alarms [Alarm; Key "k"; Alarm]) / TICKS_PER_SEC)
             mod MINUTE), w') /\
     get_mins w' =
       (Val (Z.of_nat (alarms [Alarm; Key "k"; Alarm]) / TICKS_PER_SEC
             / MINUTE), w') /\
     court w' = {| top := BORDER;
                   right := COLS (boot 11 40 (tape_of [1; 10; 1; 0; 3; 2]%N))
                            - BORDER - 1;
                   bot := LINES (boot 11 40 (tape_of [1; 10; 1; 0; 3; 2]%N))
                          - BORDER - 1;
                   left := BORDER |}).
Proof.
  do 2 eexists. split; [vm_compute; reflexivity|].
  eapply (Game.game_clock_counts_alarms zero_ball [Alarm; Key "k"; Alarm]
            (boot 11 40 (tape_of [1; 10; 1; 0; 3; 2]%N))).
  vm_compute; reflexivity.
Defined.

End MoreInstances.
